(** * Kyty kernel memory bookkeeping (Emulator/Kernel/Memory.cpp)

    A shallow embedding of the physical and flexible memory managers and of
    the kernel entry points built on them, with the properties of the
    natural-language specification stated and proved over that embedding.

    Conventions of the embedding:
    - [uint64_t] and [size_t] values are integers in [0, 2^64); every
      addition the C++ code performs on them is followed by [wrap64];
    - [int64_t] values are integers in [-2^63, 2^63); [int] is an integer;
    - a [Vector<AllocatedBlock>] is a [list] in insertion order;
    - output pointers are modelled by returned values; where the result of
      a function depends on a pointer being null, a boolean or an [option]
      says whether it is; [Release] and the two [Unmap] methods are only
      called with the addresses of local variables, and their [EXIT_IF]
      checks on those pointers have no counterpart here;
    - logging ([PRINT_NAME], [printf]) is left out;
    - [EXIT], [EXIT_IF] and [EXIT_NOT_IMPLEMENTED] terminate the process:
      the kernel entry points run in an outcome type with an [Exit] case. *)

From Stdlib Require Import ZArith List Bool Lia.
Import ListNotations.
Open Scope Z_scope.

(** ** Machine integers *)

Definition wrap64 (z : Z) : Z := z mod 2 ^ 64.

(** [static_cast<int64_t>] of a 64-bit unsigned value. *)
Definition to_int64 (z : Z) : Z :=
  if wrap64 z <? 2 ^ 63 then wrap64 z else wrap64 z - 2 ^ 64.

Definition int64 (z : Z) : Prop := - 2 ^ 63 <= z < 2 ^ 63.

(** ** Collaborator enumerations *)

Module VirtualMemory.
(** Modelled from the spec: [VirtualMemory::Mode] is declared in
    Emulator/VirtualMemory.h, which is not part of the source at hand; the
    constructors are the access modes the specification lists and the
    code names. *)
Inductive Mode : Set :=
| NoAccess | Read | ReadWrite | Execute | ExecuteRead | ExecuteReadWrite.
End VirtualMemory.

Module Graphics.
(** Modelled from the spec: [Graphics::GpuMemoryMode] is declared in
    Emulator/Graphics/GpuMemory.h, which is not part of the source at
    hand; the constructors are the two values the code names. *)
Inductive GpuMemoryMode : Set :=
| NoAccess | ReadWrite.

Definition is_NoAccess (g : GpuMemoryMode) : bool :=
  match g with NoAccess => true | ReadWrite => false end.
End Graphics.

(** [get_aligned_pos]:
    [align != 0 ? (pos + (align - 1)) & ~(align - 1) : pos]. *)
Definition get_aligned_pos (pos align : Z) : Z :=
  if negb (align =? 0)
  then Z.land (wrap64 (pos + (align - 1))) (wrap64 (Z.lnot (wrap64 (align - 1))))
  else pos.

(** The contents returned by both [Find] methods:
    [(base_addr, len, prot, mode, gpu_mode)]. *)
Definition attributes : Type :=
  (Z * Z * Z * VirtualMemory.Mode * Graphics.GpuMemoryMode)%type.

(** ** class PhysicalMemory *)

Module PhysicalMemory.

Record AllocatedBlock : Type := mkBlock {
  start_addr : Z;
  size : Z;
  map_vaddr : Z;
  map_size : Z;
  prot : Z;
  mode : VirtualMemory.Mode;
  gpu_mode : Graphics.GpuMemoryMode
}.

Definition Size : Z := 5376 * 1024 * 1024.

(** The loop of [Alloc] that computes [free_pos] before alignment. *)
Definition scan_free_pos (m_allocated : list AllocatedBlock) : Z :=
  fold_left
    (fun free_pos b =>
       let n := wrap64 (start_addr b + size b) in
       if n >? free_pos then n else free_pos)
    m_allocated 0.

(** The block [Alloc] appends. *)
Definition fresh_block (free_pos len : Z) : AllocatedBlock :=
  {| start_addr := free_pos;
     size := len;
     map_vaddr := 0;
     map_size := 0;
     prot := 0;
     mode := VirtualMemory.NoAccess;
     gpu_mode := Graphics.NoAccess |}.

(** [Alloc]: [Some a] when the call returns [true] and writes [a] to
    [*phys_addr_out], [None] when it returns [false]; the second component
    is [m_allocated] after the call. *)
Definition Alloc (m_allocated : list AllocatedBlock)
    (search_start search_end len alignment : Z) (phys_addr_out_null : bool)
  : option Z * list AllocatedBlock :=
  if phys_addr_out_null then (None, m_allocated)
  else
    let free_pos := get_aligned_pos (scan_free_pos m_allocated) alignment in
    if (free_pos >=? search_start) && (wrap64 (free_pos + len) <=? search_end)
    then (Some free_pos, m_allocated ++ [fresh_block free_pos len])
    else (None, m_allocated).

(** [Release]: on a match the results written to [*vaddr], [*size] and
    [*gpu_mode], and the vector without the matching element. *)
Fixpoint Release (m_allocated : list AllocatedBlock) (start len : Z)
  : option (Z * Z * Graphics.GpuMemoryMode) * list AllocatedBlock :=
  match m_allocated with
  | [] => (None, [])
  | b :: rest =>
      if (start =? start_addr b) && (len =? size b)
      then (Some (map_vaddr b, map_size b, gpu_mode b), rest)
      else
        let (r, rest') := Release rest start len in
        (r, b :: rest')
  end.

Definition set_mapping (b : AllocatedBlock) (vaddr len prot : Z)
    (mode : VirtualMemory.Mode) (gpu_mode : Graphics.GpuMemoryMode)
  : AllocatedBlock :=
  {| start_addr := start_addr b;
     size := size b;
     map_vaddr := vaddr;
     map_size := len;
     prot := prot;
     mode := mode;
     gpu_mode := gpu_mode |}.

(** The test [phys_addr >= b.start_addr && phys_addr < b.start_addr + b.size]. *)
Definition holds_phys (b : AllocatedBlock) (phys_addr : Z) : bool :=
  (phys_addr >=? start_addr b) && (phys_addr <? wrap64 (start_addr b + size b)).

(** The test [b.map_vaddr != 0 || b.map_size != 0]. *)
Definition is_mapped (b : AllocatedBlock) : bool :=
  negb (map_vaddr b =? 0) || negb (map_size b =? 0).

Fixpoint Map (m_allocated : list AllocatedBlock) (vaddr phys_addr len prot : Z)
    (mode : VirtualMemory.Mode) (gpu_mode : Graphics.GpuMemoryMode)
  : bool * list AllocatedBlock :=
  match m_allocated with
  | [] => (false, [])
  | b :: rest =>
      if holds_phys b phys_addr
      then
        if is_mapped b then (false, b :: rest)
        else (true, set_mapping b vaddr len prot mode gpu_mode :: rest)
      else
        let (r, rest') := Map rest vaddr phys_addr len prot mode gpu_mode in
        (r, b :: rest')
  end.

Fixpoint Unmap (m_allocated : list AllocatedBlock) (vaddr size : Z)
  : option Graphics.GpuMemoryMode * list AllocatedBlock :=
  match m_allocated with
  | [] => (None, [])
  | b :: rest =>
      if (map_vaddr b =? vaddr) && (map_size b =? size)
      then (Some (gpu_mode b),
            set_mapping b 0 0 0 VirtualMemory.NoAccess Graphics.NoAccess :: rest)
      else
        let (r, rest') := Unmap rest vaddr size in
        (r, b :: rest')
  end.

(** The test [vaddr >= b.map_vaddr && vaddr < b.map_vaddr + b.map_size]. *)
Definition holds_vaddr (b : AllocatedBlock) (vaddr : Z) : bool :=
  (vaddr >=? map_vaddr b) && (vaddr <? wrap64 (map_vaddr b + map_size b)).

Definition attributes_of (b : AllocatedBlock) : attributes :=
  (map_vaddr b, map_size b, prot b, mode b, gpu_mode b).

(** [Find]: [std::any_of] stops at the first block whose lambda returns
    [true]; that lambda has then written the block's attributes. *)
Fixpoint Find (m_allocated : list AllocatedBlock) (vaddr : Z) : option attributes :=
  match m_allocated with
  | [] => None
  | b :: rest =>
      if holds_vaddr b vaddr then Some (attributes_of b) else Find rest vaddr
  end.

End PhysicalMemory.

(** ** class FlexibleMemory *)

Module FlexibleMemory.

Record AllocatedBlock : Type := mkBlock {
  map_vaddr : Z;
  map_size : Z;
  prot : Z;
  mode : VirtualMemory.Mode;
  gpu_mode : Graphics.GpuMemoryMode
}.

Definition Map (m_allocated : list AllocatedBlock) (vaddr len prot : Z)
    (mode : VirtualMemory.Mode) (gpu_mode : Graphics.GpuMemoryMode)
  : bool * list AllocatedBlock :=
  (true,
   m_allocated ++
     [{| map_vaddr := vaddr; map_size := len; prot := prot;
         mode := mode; gpu_mode := gpu_mode |}]).

Fixpoint Unmap (m_allocated : list AllocatedBlock) (vaddr size : Z)
  : option Graphics.GpuMemoryMode * list AllocatedBlock :=
  match m_allocated with
  | [] => (None, [])
  | b :: rest =>
      if (map_vaddr b =? vaddr) && (map_size b =? size)
      then (Some (gpu_mode b), rest)
      else
        let (r, rest') := Unmap rest vaddr size in
        (r, b :: rest')
  end.

Definition holds_vaddr (b : AllocatedBlock) (vaddr : Z) : bool :=
  (vaddr >=? map_vaddr b) && (vaddr <? wrap64 (map_vaddr b + map_size b)).

Definition attributes_of (b : AllocatedBlock) : attributes :=
  (map_vaddr b, map_size b, prot b, mode b, gpu_mode b).

Fixpoint Find (m_allocated : list AllocatedBlock) (vaddr : Z) : option attributes :=
  match m_allocated with
  | [] => None
  | b :: rest =>
      if holds_vaddr b vaddr then Some (attributes_of b) else Find rest vaddr
  end.

End FlexibleMemory.

(** ** The kernel entry points *)

(** Modelled from the spec: the status codes are constants of
    Emulator/Libs/Errno.h, which is not part of the source at hand; the
    specification names them as the distinct results success,
    invalid-argument, out-of-memory, try-again, resource-busy and
    access-denied. *)
Inductive status : Set :=
| OK
| KERNEL_ERROR_EINVAL
| KERNEL_ERROR_ENOMEM
| KERNEL_ERROR_EAGAIN
| KERNEL_ERROR_EBUSY
| KERNEL_ERROR_EACCES.

(** Calls made to the collaborators (host address space, GPU), in the order
    the code makes them. *)
Inductive call : Type :=
| VirtualMemory_Alloc (address size : Z) (mode : VirtualMemory.Mode)
| VirtualMemory_AllocAligned (address size : Z) (mode : VirtualMemory.Mode) (alignment : Z)
| VirtualMemory_Free (address : Z)
| GraphicsRunWait
| WindowGetGraphicContext
| GpuMemoryFree (vaddr size : Z)
| GpuMemorySetAllocatedRange (vaddr size : Z).

(** The two global manager pointers and the collaborator calls made so far
    (oldest first). *)
Record world : Type := mkWorld {
  g_physical_memory : option (list PhysicalMemory.AllocatedBlock);
  g_flexible_memory : option (list FlexibleMemory.AllocatedBlock);
  calls : list call
}.

Inductive outcome (A : Type) : Type :=
| Exit
| Return (a : A) (w : world).
Arguments Exit {A}.
Arguments Return {A} a w.

Definition M (A : Type) : Type := world -> outcome A.

Definition ret {A} (a : A) : M A := fun w => Return a w.

Definition bind {A B} (c : M A) (k : A -> M B) : M B :=
  fun w => match c w with Exit => Exit | Return a w' => k a w' end.

Notation "x <- c ;; k" := (bind c (fun x => k))
  (at level 61, c at next level, right associativity).
Notation "c ;; k" := (bind c (fun _ => k))
  (at level 61, right associativity).

Definition EXIT {A} : M A := fun _ => Exit.

(** Modelled from the spec: [EXIT_IF] and [EXIT_NOT_IMPLEMENTED] are macros
    of Kyty/Core/DbgAssert.h, which is not part of the source at hand; per
    the specification a violated check is fatal and ends the session instead
    of returning a code. *)
Definition EXIT_IF (flag : bool) : M unit :=
  fun w => if flag then Exit else Return tt w.

Definition EXIT_NOT_IMPLEMENTED (flag : bool) : M unit := EXIT_IF flag.

Definition is_nullptr {A} (p : option A) : bool :=
  match p with None => true | Some _ => false end.

Definition physical_is_null : M bool := fun w => Return (is_nullptr (g_physical_memory w)) w.
Definition flexible_is_null : M bool := fun w => Return (is_nullptr (g_flexible_memory w)) w.

(** A method call [g_physical_memory->f(...)]. *)
Definition on_physical {A}
    (f : list PhysicalMemory.AllocatedBlock -> A * list PhysicalMemory.AllocatedBlock)
  : M A :=
  fun w =>
    match g_physical_memory w with
    | None => Exit
    | Some m =>
        let (a, m') := f m in
        Return a (mkWorld (Some m') (g_flexible_memory w) (calls w))
    end.

(** A method call [g_flexible_memory->f(...)]. *)
Definition on_flexible {A}
    (f : list FlexibleMemory.AllocatedBlock -> A * list FlexibleMemory.AllocatedBlock)
  : M A :=
  fun w =>
    match g_flexible_memory w with
    | None => Exit
    | Some m =>
        let (a, m') := f m in
        Return a (mkWorld (g_physical_memory w) (Some m') (calls w))
    end.

Definition collaborator (c : call) : M unit :=
  fun w => Return tt (mkWorld (g_physical_memory w) (g_flexible_memory w) (calls w ++ [c])).

(** The [switch (prot)] of [KernelMapNamedFlexibleMemory]; [None] is its
    [default: EXIT(...)]. *)
Definition flexible_prot_switch (prot : Z) : option VirtualMemory.Mode :=
  match prot with
  | 0 => Some VirtualMemory.NoAccess
  | 1 => Some VirtualMemory.Read
  | 2 | 3 => Some VirtualMemory.ReadWrite
  | 4 => Some VirtualMemory.Execute
  | 5 => Some VirtualMemory.ExecuteRead
  | 6 | 7 => Some VirtualMemory.ExecuteReadWrite
  | _ => None
  end.

(** The [switch (prot)] of [KernelMapDirectMemory], with the initial value
    [GpuMemoryMode::NoAccess] of [gpu_mode]; [None] is its
    [default: EXIT(...)]. *)
Definition direct_prot_switch (prot : Z)
  : option (VirtualMemory.Mode * Graphics.GpuMemoryMode) :=
  match prot with
  | 0x00 => Some (VirtualMemory.NoAccess, Graphics.NoAccess)
  | 0x01 => Some (VirtualMemory.Read, Graphics.NoAccess)
  | 0x02 | 0x03 => Some (VirtualMemory.ReadWrite, Graphics.NoAccess)
  | 0x04 => Some (VirtualMemory.Execute, Graphics.NoAccess)
  | 0x05 => Some (VirtualMemory.ExecuteRead, Graphics.NoAccess)
  | 0x06 | 0x07 => Some (VirtualMemory.ExecuteReadWrite, Graphics.NoAccess)
  | 0x32 | 0x33 => Some (VirtualMemory.ReadWrite, Graphics.ReadWrite)
  | _ => None
  end.

Definition or_EXIT {A} (o : option A) : M A :=
  match o with Some a => ret a | None => EXIT end.

(** [KernelMapNamedFlexibleMemory]. [addr_in_out] is [None] for a null
    pointer and [Some a] for a pointer to a cell holding [a]; [host_addr] is
    the address [VirtualMemory::Alloc] returns in this call. The result is
    the status and the value left in [*addr_in_out]. The [name] argument is
    only printed and is left out. *)
Definition KernelMapNamedFlexibleMemory
    (addr_in_out : option Z) (len prot flags : Z) (host_addr : Z)
  : M (status * Z) :=
  null <- flexible_is_null ;;
  EXIT_IF null ;;
  EXIT_NOT_IMPLEMENTED (is_nullptr addr_in_out) ;;
  EXIT_NOT_IMPLEMENTED (negb (flags =? 0)) ;;
  let gpu_mode := Graphics.NoAccess in
  mode <- or_EXIT (flexible_prot_switch prot) ;;
  in_addr <- or_EXIT addr_in_out ;;
  collaborator (VirtualMemory_Alloc in_addr len mode) ;;
  let out_addr := host_addr in
  mapped <- on_flexible
    (fun m => FlexibleMemory.Map m out_addr len prot mode gpu_mode) ;;
  if negb mapped
  then
    collaborator (VirtualMemory_Free out_addr) ;;
    ret (KERNEL_ERROR_ENOMEM, out_addr)
  else
    if out_addr =? 0
    then ret (KERNEL_ERROR_ENOMEM, out_addr)
    else ret (OK, out_addr).

(** The teardown shared textually by [KernelMunmap] and
    [KernelReleaseDirectMemory]. *)
Definition free_ranges (vaddr size : Z) (gpu_mode : Graphics.GpuMemoryMode) : M unit :=
  (if negb (vaddr =? 0) || negb (size =? 0)
   then collaborator (VirtualMemory_Free vaddr)
   else ret tt) ;;
  (if negb (Graphics.is_NoAccess gpu_mode)
   then
     collaborator GraphicsRunWait ;;
     collaborator WindowGetGraphicContext ;;
     collaborator (GpuMemoryFree vaddr size)
   else ret tt).

Definition KernelMunmap (vaddr len : Z) : M status :=
  pnull <- physical_is_null ;;
  EXIT_IF pnull ;;
  fnull <- flexible_is_null ;;
  EXIT_IF fnull ;;
  if (vaddr <? 0) || (len =? 0)
  then ret KERNEL_ERROR_EINVAL
  else
    result <- on_physical (fun m => PhysicalMemory.Unmap m vaddr len) ;;
    result <- match result with
              | Some gpu_mode => ret (Some gpu_mode)
              | None => on_flexible (fun m => FlexibleMemory.Unmap m vaddr len)
              end ;;
    gpu_mode <- or_EXIT result ;;
    free_ranges vaddr len gpu_mode ;;
    ret OK.

Definition KernelGetDirectMemorySize : M Z := ret PhysicalMemory.Size.

(** [KernelAllocateDirectMemory]. The result is the status and, when the
    call stores through [phys_addr_out], the stored [int64_t]. The
    [memory_type] argument is only printed and is left out. *)
Definition KernelAllocateDirectMemory
    (search_start search_end len alignment : Z) (phys_addr_out_null : bool)
  : M (status * option Z) :=
  pnull <- physical_is_null ;;
  EXIT_IF pnull ;;
  if (search_start <? 0) || (search_end <=? search_start) || (len =? 0)
     || phys_addr_out_null
  then ret (KERNEL_ERROR_EINVAL, None)
  else
    r <- on_physical
      (fun m => PhysicalMemory.Alloc m (wrap64 search_start) (wrap64 search_end)
                  len alignment false) ;;
    match r with
    | None => ret (KERNEL_ERROR_EAGAIN, None)
    | Some addr => ret (OK, Some (to_int64 addr))
    end.

Definition KernelReleaseDirectMemory (start len : Z) : M status :=
  pnull <- physical_is_null ;;
  EXIT_IF pnull ;;
  if (start <? 0) || (len =? 0)
  then ret KERNEL_ERROR_EINVAL
  else
    result <- on_physical (fun m => PhysicalMemory.Release m (wrap64 start) len) ;;
    EXIT_NOT_IMPLEMENTED (is_nullptr result) ;;
    r <- or_EXIT result ;;
    let '(vaddr, size, gpu_mode) := r in
    free_ranges vaddr size gpu_mode ;;
    ret OK.

(** [KernelMapDirectMemory]. [addr] and [host_addr] are as in
    [KernelMapNamedFlexibleMemory], [host_addr] being the result of
    [VirtualMemory::AllocAligned]. *)
Definition KernelMapDirectMemory
    (addr : option Z) (len prot flags direct_memory_start alignment : Z)
    (host_addr : Z)
  : M (status * Z) :=
  pnull <- physical_is_null ;;
  EXIT_IF pnull ;;
  EXIT_NOT_IMPLEMENTED (is_nullptr addr) ;;
  EXIT_NOT_IMPLEMENTED (negb (flags =? 0)) ;;
  modes <- or_EXIT (direct_prot_switch prot) ;;
  let (mode, gpu_mode) := modes in
  in_addr <- or_EXIT addr ;;
  collaborator (VirtualMemory_AllocAligned in_addr len mode alignment) ;;
  let out_addr := host_addr in
  if out_addr =? 0
  then ret (KERNEL_ERROR_ENOMEM, out_addr)
  else
    mapped <- on_physical
      (fun m => PhysicalMemory.Map m out_addr (wrap64 direct_memory_start) len
                  prot mode gpu_mode) ;;
    if negb mapped
    then
      collaborator (VirtualMemory_Free out_addr) ;;
      ret (KERNEL_ERROR_EBUSY, out_addr)
    else
      (if negb (Graphics.is_NoAccess gpu_mode)
       then collaborator (GpuMemorySetAllocatedRange out_addr len)
       else ret tt) ;;
      ret (OK, out_addr).

(** [KernelQueryMemoryProtection]. On success the result carries the values
    the code stores through those of [start], [end] and [prot] that are not
    null: [(base, base + len - 1, p)]. *)
Definition KernelQueryMemoryProtection (addr : Z) : M (status * option (Z * Z * Z)) :=
  pnull <- physical_is_null ;;
  EXIT_IF pnull ;;
  fnull <- flexible_is_null ;;
  EXIT_IF fnull ;;
  EXIT_NOT_IMPLEMENTED (addr =? 0) ;;
  found <- on_physical (fun m => (PhysicalMemory.Find m addr, m)) ;;
  found <- match found with
           | Some a => ret (Some a)
           | None => on_flexible (fun m => (FlexibleMemory.Find m addr, m))
           end ;;
  match found with
  | None => ret (KERNEL_ERROR_EACCES, None)
  | Some (base, len, p, _, _) =>
      ret (OK, Some (base, wrap64 (base + len - 1), p))
  end.

(** [KYTY_SUBSYSTEM_INIT(Memory)]: both managers are constructed, with
    empty vectors. *)
Definition Memory_SubsystemInit : world := mkWorld (Some []) (Some []) [].

(** A guest call into the kernel layer, with the address the host returns
    where the entry point reserves one. *)
Inductive guest_call : Type :=
| MapNamedFlexibleMemory (addr_in_out : option Z) (len prot flags host_addr : Z)
| Munmap (vaddr len : Z)
| AllocateDirectMemory (search_start search_end len alignment : Z)
    (phys_addr_out_null : bool)
| ReleaseDirectMemory (start len : Z)
| MapDirectMemory (addr : option Z)
    (len prot flags direct_memory_start alignment host_addr : Z)
| QueryMemoryProtection (addr : Z).

Definition serve (c : guest_call) : M unit :=
  match c with
  | MapNamedFlexibleMemory addr_in_out len prot flags host_addr =>
      KernelMapNamedFlexibleMemory addr_in_out len prot flags host_addr ;; ret tt
  | Munmap vaddr len => KernelMunmap vaddr len ;; ret tt
  | AllocateDirectMemory search_start search_end len alignment null =>
      KernelAllocateDirectMemory search_start search_end len alignment null ;; ret tt
  | ReleaseDirectMemory start len => KernelReleaseDirectMemory start len ;; ret tt
  | MapDirectMemory addr len prot flags direct_memory_start alignment host_addr =>
      KernelMapDirectMemory addr len prot flags direct_memory_start alignment host_addr ;;
      ret tt
  | QueryMemoryProtection addr => KernelQueryMemoryProtection addr ;; ret tt
  end.

(** The guest calls of a session, served in order. *)
Fixpoint serve_all (cs : list guest_call) : M unit :=
  match cs with
  | [] => ret tt
  | c :: rest => serve c ;; serve_all rest
  end.

(** ** Definitions that follow the words of the specification *)

(** "the maximum of (start+size) over all currently allocated blocks",
    as a number, 0 when there is no block. *)
Definition max_end_spec (m : list PhysicalMemory.AllocatedBlock) : Z :=
  fold_right Z.max 0
    (map (fun b => PhysicalMemory.start_addr b + PhysicalMemory.size b) m).

(** "aligned up to alignment": the least multiple of [alignment] that is
    not below [pos]; [pos] itself when [alignment] is 0. *)
Definition align_up_spec (pos alignment : Z) : Z :=
  if alignment =? 0 then pos
  else alignment * ((pos + alignment - 1) / alignment).

(** The section 4.1 table of the specification, row by row. *)
Definition protection_table
  : list (Z * (VirtualMemory.Mode * Graphics.GpuMemoryMode)) :=
  [ (0, (VirtualMemory.NoAccess, Graphics.NoAccess));
    (1, (VirtualMemory.Read, Graphics.NoAccess));
    (2, (VirtualMemory.ReadWrite, Graphics.NoAccess));
    (3, (VirtualMemory.ReadWrite, Graphics.NoAccess));
    (4, (VirtualMemory.Execute, Graphics.NoAccess));
    (5, (VirtualMemory.ExecuteRead, Graphics.NoAccess));
    (6, (VirtualMemory.ExecuteReadWrite, Graphics.NoAccess));
    (7, (VirtualMemory.ExecuteReadWrite, Graphics.NoAccess));
    (50, (VirtualMemory.ReadWrite, Graphics.ReadWrite));
    (51, (VirtualMemory.ReadWrite, Graphics.ReadWrite)) ].

Fixpoint table_lookup {A} (t : list (Z * A)) (code : Z) : option A :=
  match t with
  | [] => None
  | (c, a) :: rest => if c =? code then Some a else table_lookup rest code
  end.

(** The rows of the table that are "direct-memory map only". *)
Definition direct_only (code : Z) : bool := (code =? 50) || (code =? 51).

(** "Releases the host virtual range. If the mapping being torn down was
    GPU-visible, waits for outstanding GPU work to drain, then releases the
    GPU-owned range": the collaborator calls of a teardown, in order. *)
Definition teardown_spec (vaddr size : Z) (gpu_mode : Graphics.GpuMemoryMode)
  : list call :=
  VirtualMemory_Free vaddr ::
  match gpu_mode with
  | Graphics.NoAccess => []
  | _ => [GraphicsRunWait; WindowGetGraphicContext; GpuMemoryFree vaddr size]
  end.

(** ** Predicates used in the statements *)

(** A block without a mapping, in the words of the invariant. *)
Definition block_unmapped (b : PhysicalMemory.AllocatedBlock) : Prop :=
  PhysicalMemory.map_vaddr b = 0 /\ PhysicalMemory.map_size b = 0 /\
  PhysicalMemory.mode b = VirtualMemory.NoAccess /\
  PhysicalMemory.gpu_mode b = Graphics.NoAccess.

(** The block invariant: no mapping, or one active mapping in the sense of
    the test [Map] makes ([map_vaddr != 0 || map_size != 0]). *)
Definition block_invariant (b : PhysicalMemory.AllocatedBlock) : Prop :=
  block_unmapped b \/ PhysicalMemory.is_mapped b = true.

Definition world_invariant (w : world) : Prop :=
  match g_physical_memory w with
  | Some m => Forall block_invariant m
  | None => True
  end.

(** The physical range of a block lies in the 64-bit address space. *)
Definition block_in_range (b : PhysicalMemory.AllocatedBlock) : Prop :=
  0 <= PhysicalMemory.start_addr b /\ 0 <= PhysicalMemory.size b /\
  PhysicalMemory.start_addr b + PhysicalMemory.size b < 2 ^ 64.

(** The value [n = b.start_addr + b.size] of the loop of [Alloc]. *)
Definition block_end (b : PhysicalMemory.AllocatedBlock) : Z :=
  wrap64 (PhysicalMemory.start_addr b + PhysicalMemory.size b).

(** The test [start == b.start_addr && len == b.size] of [Release]. *)
Definition same_range (start len : Z) (b : PhysicalMemory.AllocatedBlock) : Prop :=
  PhysicalMemory.start_addr b = start /\ PhysicalMemory.size b = len.

(** A run of the physical manager without [Release]: successful [Alloc]
    calls, the address and the length of each recorded in order, with any
    [Map] and [Unmap] calls in between. Every [Alloc] is made with 64-bit
    arguments whose rounding and block end stay below 2^64. *)
Inductive alloc_steps
  : list PhysicalMemory.AllocatedBlock -> list (Z * Z) ->
    list PhysicalMemory.AllocatedBlock -> Prop :=
| alloc_steps_done m : alloc_steps m [] m
| alloc_steps_next m search_start search_end len alignment addr m' rest m'' :
    0 <= len -> 0 <= alignment ->
    PhysicalMemory.scan_free_pos m + alignment <= 2 ^ 64 ->
    addr + len < 2 ^ 64 ->
    PhysicalMemory.Alloc m search_start search_end len alignment false
      = (Some addr, m') ->
    alloc_steps m' rest m'' ->
    alloc_steps m ((addr, len) :: rest) m''
| alloc_steps_Map m vaddr phys_addr len prot mode gpu_mode rest m'' :
    alloc_steps
      (snd (PhysicalMemory.Map m vaddr phys_addr len prot mode gpu_mode)) rest m'' ->
    alloc_steps m rest m''
| alloc_steps_Unmap m vaddr size rest m'' :
    alloc_steps (snd (PhysicalMemory.Unmap m vaddr size)) rest m'' ->
    alloc_steps m rest m''.

(** Each recorded address is at least the previous address plus the
    previous length. *)
Fixpoint ascending (t : list (Z * Z)) : Prop :=
  match t with
  | [] => True
  | (addr, len) :: rest =>
      match rest with
      | [] => True
      | (addr', _) :: _ => addr + len <= addr' /\ ascending rest
      end
  end.

(** The mapping recorded in an entry lies in the 64-bit address space. *)
Definition mapping_in_range (map_vaddr map_size : Z) : Prop :=
  0 <= map_vaddr /\ 0 <= map_size /\ map_vaddr + map_size < 2 ^ 64.

(** "map_vaddr <= vaddr < map_vaddr + map_size", as numbers. *)
Definition contains_spec (map_vaddr map_size vaddr : Z) : Prop :=
  map_vaddr <= vaddr < map_vaddr + map_size.

(** A computation of the kernel layer keeps the block invariant. *)
Definition preserves_invariant {A} (c : M A) : Prop :=
  forall w a w', world_invariant w -> c w = Return a w' -> world_invariant w'.

(** The physical ranges [(start_addr, size)] of the blocks, in list order. *)
Definition physical_ranges (m : list PhysicalMemory.AllocatedBlock) : list (Z * Z) :=
  map (fun b => (PhysicalMemory.start_addr b, PhysicalMemory.size b)) m.

(** Every range lies in the 64-bit address space and ends at or before the
    start of every range that comes later in the list. *)
Fixpoint ranges_separated (rs : list (Z * Z)) : Prop :=
  match rs with
  | [] => True
  | (start, size) :: rest =>
      (0 <= start /\ 0 <= size /\ start + size < 2 ^ 64) /\
      Forall (fun r => start + size <= fst r) rest /\
      ranges_separated rest
  end.

Definition separated (m : list PhysicalMemory.AllocatedBlock) : Prop :=
  ranges_separated (physical_ranges m).

(** A computation of the kernel layer that returns leaves the flexible
    manager, respectively the physical manager, as it found it. *)
Definition leaves_flexible_alone {A} (c : M A) : Prop :=
  forall w a w', c w = Return a w' -> g_flexible_memory w' = g_flexible_memory w.

Definition leaves_physical_alone {A} (c : M A) : Prop :=
  forall w a w', c w = Return a w' -> g_physical_memory w' = g_physical_memory w.

(** ** Machine arithmetic *)

Lemma wrap64_small (z : Z) : 0 <= z < 2 ^ 64 -> wrap64 z = z.
Proof. intros H. unfold wrap64. now apply Z.mod_small. Qed.

Lemma wrap64_range (z : Z) : 0 <= wrap64 z < 2 ^ 64.
Proof. unfold wrap64. apply Z.mod_pos_bound. lia. Qed.

Lemma wrap64_land (z : Z) : wrap64 z = Z.land z (Z.ones 64).
Proof. unfold wrap64. now rewrite Z.land_ones by lia. Qed.

Lemma land_le_r (x m : Z) : 0 <= m -> Z.land x m <= m.
Proof.
  intros Hm.
  assert (H : 0 <= Z.land m (Z.lnot x)) by (apply Z.land_nonneg; now left).
  rewrite <- Z.sub_land_same_l in H.
  rewrite (Z.land_comm x m). lia.
Qed.

(** Without wrap-around the bit trick of [get_aligned_pos] subtracts from
    [pos + (align - 1)] its bits below the mask. *)
Lemma get_aligned_pos_sub (pos align : Z) :
  0 <= pos -> 0 < align -> pos + (align - 1) < 2 ^ 64 ->
  get_aligned_pos pos align
  = (pos + (align - 1)) - Z.land (pos + (align - 1)) (align - 1).
Proof.
  intros Hp Ha Hs. unfold get_aligned_pos.
  replace (align =? 0) with false by (symmetry; apply Z.eqb_neq; lia).
  cbn [negb].
  rewrite (wrap64_small (pos + (align - 1))) by lia.
  rewrite (wrap64_small (align - 1)) by lia.
  rewrite (wrap64_land (Z.lnot _)).
  rewrite (Z.land_comm (Z.lnot _)), Z.land_assoc.
  rewrite <- wrap64_land, (wrap64_small (pos + (align - 1))) by lia.
  now rewrite Z.sub_land_same_l.
Qed.

Lemma get_aligned_pos_zero (pos : Z) : get_aligned_pos pos 0 = pos.
Proof. reflexivity. Qed.

Lemma get_aligned_pos_one (pos : Z) : 0 <= pos < 2 ^ 64 -> get_aligned_pos pos 1 = pos.
Proof.
  intros H. rewrite get_aligned_pos_sub by lia.
  replace (1 - 1) with 0 by lia. rewrite Z.land_0_r. lia.
Qed.

Lemma get_aligned_pos_bounds (pos align : Z) :
  0 <= pos -> 0 < align -> pos + (align - 1) < 2 ^ 64 ->
  pos <= get_aligned_pos pos align <= pos + (align - 1).
Proof.
  intros Hp Ha Hs. rewrite get_aligned_pos_sub by assumption.
  assert (Z.land (pos + (align - 1)) (align - 1) <= align - 1)
    by (apply land_le_r; lia).
  assert (0 <= Z.land (pos + (align - 1)) (align - 1))
    by (apply Z.land_nonneg; right; lia).
  lia.
Qed.

Lemma get_aligned_pos_nonneg (pos align : Z) :
  0 <= pos -> 0 <= get_aligned_pos pos align.
Proof.
  intros Hp. unfold get_aligned_pos.
  destruct (negb (align =? 0)); [|assumption].
  apply Z.land_nonneg. left. apply wrap64_range.
Qed.

(** For a power of two the bit trick rounds up to the next multiple. *)
Lemma get_aligned_pos_pow2 (pos k : Z) :
  0 <= pos -> 0 <= k -> pos + (2 ^ k - 1) < 2 ^ 64 ->
  get_aligned_pos pos (2 ^ k) = align_up_spec pos (2 ^ k).
Proof.
  intros Hp Hk Hs.
  assert (Hpow : 0 < 2 ^ k) by (apply Z.pow_pos_nonneg; lia).
  rewrite get_aligned_pos_sub by lia.
  unfold align_up_spec.
  replace (2 ^ k =? 0) with false by (symmetry; apply Z.eqb_neq; lia).
  assert (Hl : Z.land (pos + (2 ^ k - 1)) (2 ^ k - 1) = (pos + (2 ^ k - 1)) mod 2 ^ k).
  { rewrite <- Z.land_ones by assumption. f_equal. rewrite Z.ones_equiv. lia. }
  rewrite Hl.
  replace (pos + 2 ^ k - 1) with (pos + (2 ^ k - 1)) by lia.
  pose proof (Z.div_mod (pos + (2 ^ k - 1)) (2 ^ k)). lia.
Qed.

(** ** PhysicalMemory::Alloc *)

Module AllocFacts.
Import PhysicalMemory.

Lemma scan_fold (m : list AllocatedBlock) (acc : Z) :
  0 <= acc ->
  fold_left
    (fun free_pos b =>
       let n := wrap64 (start_addr b + size b) in
       if n >? free_pos then n else free_pos) m acc
  = Z.max acc (scan_free_pos m).
Proof.
  unfold scan_free_pos. revert acc.
  induction m as [|b m IH]; intros acc Hacc; cbn [fold_left].
  - lia.
  - pose proof (wrap64_range (start_addr b + size b)).
    cbv zeta.
    rewrite (IH (if _ >? acc then _ else _)), (IH (if _ >? 0 then _ else _)).
    + destruct (Z.gtb_spec (wrap64 (start_addr b + size b)) acc);
        destruct (Z.gtb_spec (wrap64 (start_addr b + size b)) 0); lia.
    + destruct (Z.gtb_spec (wrap64 (start_addr b + size b)) 0); lia.
    + destruct (Z.gtb_spec (wrap64 (start_addr b + size b)) acc); lia.
Qed.

Lemma scan_nil : scan_free_pos [] = 0.
Proof. reflexivity. Qed.

Lemma scan_cons (b : AllocatedBlock) (m : list AllocatedBlock) :
  scan_free_pos (b :: m) = Z.max (block_end b) (scan_free_pos m).
Proof.
  pose proof (wrap64_range (start_addr b + size b)).
  unfold scan_free_pos at 1. cbn [fold_left]. cbv zeta. rewrite scan_fold
    by (destruct (Z.gtb_spec (wrap64 (start_addr b + size b)) 0); lia).
  unfold block_end.
  destruct (Z.gtb_spec (wrap64 (start_addr b + size b)) 0); lia.
Qed.

Lemma scan_app_one (m : list AllocatedBlock) (b : AllocatedBlock) :
  scan_free_pos (m ++ [b]) = Z.max (scan_free_pos m) (block_end b).
Proof.
  induction m as [|x m IH].
  - cbn [app]. rewrite scan_cons, scan_nil.
    unfold block_end. pose proof (wrap64_range (start_addr b + size b)). lia.
  - cbn [app]. rewrite !scan_cons, IH. lia.
Qed.

Lemma scan_range (m : list AllocatedBlock) : 0 <= scan_free_pos m < 2 ^ 64.
Proof.
  induction m as [|b m IH].
  - rewrite scan_nil. lia.
  - rewrite scan_cons. unfold block_end.
    pose proof (wrap64_range (start_addr b + size b)). lia.
Qed.

Lemma scan_member (m : list AllocatedBlock) (b : AllocatedBlock) :
  In b m -> block_end b <= scan_free_pos m.
Proof.
  induction m as [|x m IH]; intros Hin; [contradiction|].
  rewrite scan_cons. destruct Hin as [->|Hin]; [lia|].
  specialize (IH Hin). lia.
Qed.

Lemma scan_incl (m m' : list AllocatedBlock) :
  incl m' m -> scan_free_pos m' <= scan_free_pos m.
Proof.
  induction m' as [|b m' IH]; intros Hincl.
  - rewrite scan_nil. apply scan_range.
  - rewrite scan_cons.
    assert (block_end b <= scan_free_pos m)
      by (apply scan_member, Hincl; now left).
    assert (scan_free_pos m' <= scan_free_pos m)
      by (apply IH; intros x Hx; apply Hincl; now right).
    lia.
Qed.

(** On blocks that lie in the address space the loop computes the maximum
    of [start + size] the specification speaks of. *)
Lemma scan_max_end_spec (m : list AllocatedBlock) :
  Forall block_in_range m -> scan_free_pos m = max_end_spec m.
Proof.
  induction 1 as [|b m Hb _ IH].
  - reflexivity.
  - rewrite scan_cons, IH. unfold max_end_spec. cbn [map fold_right].
    unfold block_end. destruct Hb as (? & ? & ?).
    now rewrite wrap64_small by lia.
Qed.

Lemma candidate_nonneg (m : list AllocatedBlock) (alignment : Z) :
  0 <= get_aligned_pos (scan_free_pos m) alignment.
Proof. apply get_aligned_pos_nonneg, scan_range. Qed.

(** With alignment 0 or 1 the candidate is the scanned position itself. *)
Lemma candidate_unaligned (m : list AllocatedBlock) (alignment : Z) :
  alignment = 0 \/ alignment = 1 ->
  get_aligned_pos (scan_free_pos m) alignment = scan_free_pos m.
Proof.
  intros [->| ->].
  - apply get_aligned_pos_zero.
  - apply get_aligned_pos_one, scan_range.
Qed.

Lemma candidate_ge_scan (m : list AllocatedBlock) (alignment : Z) :
  0 <= alignment -> scan_free_pos m + alignment <= 2 ^ 64 ->
  scan_free_pos m <= get_aligned_pos (scan_free_pos m) alignment.
Proof.
  intros Ha Hs. pose proof (scan_range m).
  destruct (Z.eq_dec alignment 0) as [->|Hne].
  - rewrite get_aligned_pos_zero. lia.
  - apply get_aligned_pos_bounds; lia.
Qed.

(** The two outcomes of [Alloc] when the end of the block does not wrap. *)
Lemma Alloc_fits (m : list AllocatedBlock) (search_start search_end len alignment : Z) :
  let candidate := get_aligned_pos (scan_free_pos m) alignment in
  0 <= len -> candidate + len < 2 ^ 64 ->
  search_start <= candidate /\ candidate + len <= search_end ->
  Alloc m search_start search_end len alignment false
  = (Some candidate,
     m ++ [mkBlock candidate len 0 0 0 VirtualMemory.NoAccess Graphics.NoAccess]).
Proof.
  intros candidate Hlen Hnw [Hs He].
  pose proof (candidate_nonneg m alignment).
  unfold Alloc. fold candidate.
  rewrite wrap64_small by (subst candidate; lia).
  replace (candidate >=? search_start) with true by (symmetry; apply Z.geb_le; lia).
  replace (candidate + len <=? search_end) with true by (symmetry; apply Z.leb_le; lia).
  reflexivity.
Qed.

Lemma Alloc_does_not_fit (m : list AllocatedBlock) (search_start search_end len alignment : Z) :
  let candidate := get_aligned_pos (scan_free_pos m) alignment in
  0 <= len -> candidate + len < 2 ^ 64 ->
  ~ (search_start <= candidate /\ candidate + len <= search_end) ->
  Alloc m search_start search_end len alignment false = (None, m).
Proof.
  intros candidate Hlen Hnw Hno.
  pose proof (candidate_nonneg m alignment).
  unfold Alloc. fold candidate.
  rewrite wrap64_small by (subst candidate; lia).
  destruct (Z.geb_spec candidate search_start);
    destruct (Z.leb_spec (candidate + len) search_end);
    cbn [andb]; try reflexivity.
  exfalso. apply Hno. lia.
Qed.

(** What a successful [Alloc] returns and leaves behind. *)
Lemma Alloc_Some (m : list AllocatedBlock) (search_start search_end len alignment : Z)
    (null : bool) (addr : Z) (m' : list AllocatedBlock) :
  Alloc m search_start search_end len alignment null = (Some addr, m') ->
  addr = get_aligned_pos (scan_free_pos m) alignment /\
  m' = m ++ [fresh_block addr len].
Proof.
  unfold Alloc. destruct null; [discriminate|].
  destruct (_ && _); [|discriminate].
  intros H. injection H as <- <-. now split.
Qed.

Lemma Alloc_None (m : list AllocatedBlock) (search_start search_end len alignment : Z)
    (null : bool) (m' : list AllocatedBlock) :
  Alloc m search_start search_end len alignment null = (None, m') -> m' = m.
Proof.
  unfold Alloc. destruct null; [now intros [= <-]|].
  destruct (_ && _); [discriminate|]. now intros [= <-].
Qed.

Lemma scan_app (m1 m2 : list AllocatedBlock) :
  scan_free_pos (m1 ++ m2) = Z.max (scan_free_pos m1) (scan_free_pos m2).
Proof.
  induction m1 as [|b m1 IH]; cbn [app].
  - rewrite scan_nil. pose proof (scan_range m2). lia.
  - rewrite !scan_cons, IH. lia.
Qed.

(** Replacing a block by one with the same physical range does not move
    the scanned position. *)
Lemma scan_same_range (l1 : list AllocatedBlock) (b b' : AllocatedBlock)
    (l2 : list AllocatedBlock) :
  block_end b' = block_end b ->
  scan_free_pos (l1 ++ b' :: l2) = scan_free_pos (l1 ++ b :: l2).
Proof. intros E. now rewrite !scan_app, !scan_cons, E. Qed.

End AllocFacts.

(** ** PhysicalMemory::Release *)

Module ReleaseFacts.
Import PhysicalMemory.

Lemma Release_no_match (m : list AllocatedBlock) (start len : Z) :
  Forall (fun b => ~ same_range start len b) m ->
  Release m start len = (None, m).
Proof.
  induction 1 as [|b m Hb _ IH]; cbn [Release]; [reflexivity|].
  destruct (Z.eqb_spec start (start_addr b));
    destruct (Z.eqb_spec len (size b)); cbn [andb];
    try (now rewrite IH).
  exfalso. apply Hb. now split.
Qed.

Lemma Release_first_match (l1 : list AllocatedBlock) (b : AllocatedBlock)
    (l2 : list AllocatedBlock) (start len : Z) :
  Forall (fun x => ~ same_range start len x) l1 ->
  same_range start len b ->
  Release (l1 ++ b :: l2) start len
  = (Some (map_vaddr b, map_size b, gpu_mode b), l1 ++ l2).
Proof.
  intros Hl1 [Hs Hl].
  induction Hl1 as [|x l1 Hx _ IH]; cbn [app Release].
  - subst. now rewrite !Z.eqb_refl.
  - destruct (Z.eqb_spec start (start_addr x));
      destruct (Z.eqb_spec len (size x)); cbn [andb];
      try (now rewrite IH).
    exfalso. apply Hx. now split.
Qed.

(** Every result of [Release] is one of the two shapes above. *)
Lemma Release_inv (m : list AllocatedBlock) (start len : Z) :
  (Forall (fun b => ~ same_range start len b) m /\
   Release m start len = (None, m)) \/
  (exists l1 b l2,
      m = l1 ++ b :: l2 /\
      Forall (fun x => ~ same_range start len x) l1 /\
      same_range start len b /\
      Release m start len
      = (Some (map_vaddr b, map_size b, gpu_mode b), l1 ++ l2)).
Proof.
  induction m as [|x m IH].
  - left. split; [constructor|reflexivity].
  - destruct (Z.eq_dec (start_addr x) start) as [Hs|Hs];
      [destruct (Z.eq_dec (size x) len) as [Hl|Hl]|].
    + right. exists [], x, m. repeat split; try assumption; [constructor|].
      apply (Release_first_match [] x m); [constructor|now split].
    + assert (Hx : ~ same_range start len x) by (intros [_ ?]; contradiction).
      destruct IH as [[Hall Hrel]|(l1 & b & l2 & -> & Hl1 & Hb & Hrel)].
      * left. split; [now constructor|].
        apply Release_no_match. now constructor.
      * right. exists (x :: l1), b, l2. repeat split; try apply Hb.
        -- now constructor.
        -- apply (Release_first_match (x :: l1)); [now constructor|exact Hb].
    + assert (Hx : ~ same_range start len x) by (intros [? _]; contradiction).
      destruct IH as [[Hall Hrel]|(l1 & b & l2 & -> & Hl1 & Hb & Hrel)].
      * left. split; [now constructor|].
        apply Release_no_match. now constructor.
      * right. exists (x :: l1), b, l2. repeat split; try apply Hb.
        -- now constructor.
        -- apply (Release_first_match (x :: l1)); [now constructor|exact Hb].
Qed.

Lemma Release_incl (m : list AllocatedBlock) (start len : Z) :
  incl (snd (Release m start len)) m.
Proof.
  destruct (Release_inv m start len)
    as [[_ ->]|(l1 & b & l2 & -> & _ & _ & ->)]; cbn [snd].
  - apply incl_refl.
  - intros x Hx. apply in_app_or in Hx. apply in_or_app.
    destruct Hx; [now left|right; now right].
Qed.

(** A match in a prefix is found there, whatever follows. *)
Lemma Release_app (m tail : list AllocatedBlock) (start len : Z) :
  Exists (same_range start len) m ->
  Release (m ++ tail) start len
  = (fst (Release m start len), snd (Release m start len) ++ tail).
Proof.
  intros Hex.
  destruct (Release_inv m start len)
    as [[Hall _]|(l1 & b & l2 & -> & Hl1 & Hb & ->)].
  - exfalso. apply Exists_exists in Hex as (x & Hin & Hx).
    rewrite Forall_forall in Hall. exact (Hall x Hin Hx).
  - cbn [fst snd]. rewrite <- !app_assoc. cbn [app].
    now apply Release_first_match.
Qed.

End ReleaseFacts.

(** ** PhysicalMemory::Map, Unmap and Find *)

Module MapFacts.
Import PhysicalMemory.

Lemma Map_no_target (m : list AllocatedBlock) (vaddr phys_addr len prot : Z)
    (mode : VirtualMemory.Mode) (gpu_mode : Graphics.GpuMemoryMode) :
  Forall (fun x => holds_phys x phys_addr = false) m ->
  Map m vaddr phys_addr len prot mode gpu_mode = (false, m).
Proof.
  induction 1 as [|x m Hx _ IH]; cbn [Map]; [reflexivity|].
  now rewrite Hx, IH.
Qed.

Lemma Map_target (l1 : list AllocatedBlock) (b : AllocatedBlock)
    (l2 : list AllocatedBlock) (vaddr phys_addr len prot : Z)
    (mode : VirtualMemory.Mode) (gpu_mode : Graphics.GpuMemoryMode) :
  Forall (fun x => holds_phys x phys_addr = false) l1 ->
  holds_phys b phys_addr = true ->
  Map (l1 ++ b :: l2) vaddr phys_addr len prot mode gpu_mode
  = if is_mapped b then (false, l1 ++ b :: l2)
    else (true, l1 ++ set_mapping b vaddr len prot mode gpu_mode :: l2).
Proof.
  intros Hl1 Hb.
  induction Hl1 as [|x l1 Hx _ IH]; cbn [app Map].
  - rewrite Hb. now destruct (is_mapped b).
  - rewrite Hx, IH. now destruct (is_mapped b).
Qed.

(** The list splits at the first block that holds [phys_addr], if any. *)
Lemma first_holder (m : list AllocatedBlock) (phys_addr : Z) :
  Forall (fun x => holds_phys x phys_addr = false) m \/
  exists l1 b l2,
    m = l1 ++ b :: l2 /\
    Forall (fun x => holds_phys x phys_addr = false) l1 /\
    holds_phys b phys_addr = true.
Proof.
  induction m as [|x m IH]; [left; constructor|].
  destruct (holds_phys x phys_addr) eqn:Hx.
  - right. exists [], x, m. repeat split; [constructor|assumption].
  - destruct IH as [Hall|(l1 & b & l2 & -> & Hl1 & Hb)].
    + left. now constructor.
    + right. exists (x :: l1), b, l2. repeat split; [now constructor|assumption].
Qed.

Lemma Map_false (m m' : list AllocatedBlock) (vaddr phys_addr len prot : Z)
    (mode : VirtualMemory.Mode) (gpu_mode : Graphics.GpuMemoryMode) :
  Map m vaddr phys_addr len prot mode gpu_mode = (false, m') -> m' = m.
Proof.
  destruct (first_holder m phys_addr) as [Hall|(l1 & b & l2 & -> & Hl1 & Hb)].
  - rewrite Map_no_target by assumption. now intros [= <-].
  - rewrite Map_target by assumption.
    destruct (is_mapped b); [now intros [= <-]|discriminate].
Qed.

Lemma Unmap_no_match (m : list AllocatedBlock) (vaddr size : Z) :
  Forall (fun x => ~ (map_vaddr x = vaddr /\ map_size x = size)) m ->
  Unmap m vaddr size = (None, m).
Proof.
  induction 1 as [|x m Hx _ IH]; cbn [Unmap]; [reflexivity|].
  destruct (Z.eqb_spec (map_vaddr x) vaddr);
    destruct (Z.eqb_spec (map_size x) size); cbn [andb];
    try (now rewrite IH).
  exfalso. apply Hx. now split.
Qed.

Lemma Unmap_first_match (l1 : list AllocatedBlock) (b : AllocatedBlock)
    (l2 : list AllocatedBlock) (vaddr size : Z) :
  Forall (fun x => ~ (map_vaddr x = vaddr /\ map_size x = size)) l1 ->
  map_vaddr b = vaddr -> map_size b = size ->
  Unmap (l1 ++ b :: l2) vaddr size
  = (Some (gpu_mode b),
     l1 ++ set_mapping b 0 0 0 VirtualMemory.NoAccess Graphics.NoAccess :: l2).
Proof.
  intros Hl1 Hv Hs.
  induction Hl1 as [|x l1 Hx _ IH]; cbn [app Unmap].
  - subst. now rewrite !Z.eqb_refl.
  - destruct (Z.eqb_spec (map_vaddr x) vaddr);
      destruct (Z.eqb_spec (map_size x) size); cbn [andb];
      try (now rewrite IH).
    exfalso. apply Hx. now split.
Qed.

Lemma first_mapping (m : list AllocatedBlock) (vaddr size : Z) :
  Forall (fun x => ~ (map_vaddr x = vaddr /\ map_size x = size)) m \/
  exists l1 b l2,
    m = l1 ++ b :: l2 /\
    Forall (fun x => ~ (map_vaddr x = vaddr /\ map_size x = size)) l1 /\
    map_vaddr b = vaddr /\ map_size b = size.
Proof.
  induction m as [|x m IH]; [left; constructor|].
  destruct (Z.eq_dec (map_vaddr x) vaddr) as [Hv|Hv];
    [destruct (Z.eq_dec (map_size x) size) as [Hs|Hs]|].
  - right. exists [], x, m. repeat split; [constructor|assumption..].
  - destruct IH as [Hall|(l1 & b & l2 & -> & Hl1 & Hb)].
    + left. constructor; [tauto|assumption].
    + right. exists (x :: l1), b, l2.
      repeat split; [constructor; [tauto|assumption]|apply Hb..].
  - destruct IH as [Hall|(l1 & b & l2 & -> & Hl1 & Hb)].
    + left. constructor; [tauto|assumption].
    + right. exists (x :: l1), b, l2.
      repeat split; [constructor; [tauto|assumption]|apply Hb..].
Qed.

Lemma holds_vaddr_unmapped (b : AllocatedBlock) (vaddr : Z) :
  map_vaddr b = 0 -> map_size b = 0 -> holds_vaddr b vaddr = false.
Proof.
  intros Hv Hs. unfold holds_vaddr. rewrite Hv, Hs. cbn.
  destruct (Z.geb_spec vaddr 0); destruct (Z.ltb_spec vaddr 0);
    cbn [andb]; try reflexivity; lia.
Qed.

Lemma is_mapped_false (b : AllocatedBlock) :
  is_mapped b = false -> map_vaddr b = 0 /\ map_size b = 0.
Proof.
  unfold is_mapped.
  destruct (Z.eqb_spec (map_vaddr b) 0); destruct (Z.eqb_spec (map_size b) 0);
    cbn; intros; split; (assumption || discriminate).
Qed.

Lemma Find_skip (l1 : list AllocatedBlock) (x : AllocatedBlock)
    (l2 : list AllocatedBlock) (vaddr : Z) :
  holds_vaddr x vaddr = false ->
  Find (l1 ++ x :: l2) vaddr = Find (l1 ++ l2) vaddr.
Proof.
  intros Hx. induction l1 as [|y l1 IH]; cbn [app Find].
  - now rewrite Hx.
  - now rewrite IH.
Qed.

Lemma Find_none (m : list AllocatedBlock) (vaddr : Z) :
  Forall (fun x => holds_vaddr x vaddr = false) m -> Find m vaddr = None.
Proof.
  induction 1 as [|x m Hx _ IH]; cbn [Find]; [reflexivity|].
  now rewrite Hx.
Qed.

Lemma Find_first (l1 : list AllocatedBlock) (b : AllocatedBlock)
    (l2 : list AllocatedBlock) (vaddr : Z) :
  Forall (fun x => holds_vaddr x vaddr = false) l1 ->
  holds_vaddr b vaddr = true ->
  Find (l1 ++ b :: l2) vaddr = Some (attributes_of b).
Proof.
  intros Hl1 Hb. induction Hl1 as [|x l1 Hx _ IH]; cbn [app Find].
  - now rewrite Hb.
  - now rewrite Hx.
Qed.

Lemma Find_Some_iff (m : list AllocatedBlock) (vaddr : Z) :
  Find m vaddr <> None <-> Exists (fun b => holds_vaddr b vaddr = true) m.
Proof.
  induction m as [|x m IH]; cbn [Find].
  - split; [congruence|intros H; inversion H].
  - destruct (holds_vaddr x vaddr) eqn:Hx.
    + split; [intros _; now left|discriminate].
    + rewrite IH. split; [now right|].
      intros H. inversion H; subst; [congruence|assumption].
Qed.

Lemma holds_vaddr_spec (b : AllocatedBlock) (vaddr : Z) :
  mapping_in_range (map_vaddr b) (map_size b) ->
  holds_vaddr b vaddr = true <-> contains_spec (map_vaddr b) (map_size b) vaddr.
Proof.
  intros (Hv & Hs & Hsum). unfold holds_vaddr, contains_spec.
  rewrite wrap64_small by lia.
  rewrite andb_true_iff, Z.geb_le, Z.ltb_lt. tauto.
Qed.

Lemma Find_Some_spec (m : list AllocatedBlock) (vaddr : Z) :
  Forall (fun e => mapping_in_range (map_vaddr e) (map_size e)) m ->
  Find m vaddr <> None <->
  exists e, In e m /\ contains_spec (map_vaddr e) (map_size e) vaddr.
Proof.
  intros Hm. rewrite Find_Some_iff, Exists_exists.
  rewrite Forall_forall in Hm.
  split; intros (e & Hin & He); exists e; (split; [assumption|]);
    now apply (holds_vaddr_spec e vaddr (Hm e Hin)).
Qed.

End MapFacts.

(** ** Runs without Release *)

Module RunFacts.
Import PhysicalMemory.

Lemma alloc_steps_bounded (m : list AllocatedBlock) (t : list (Z * Z))
    (m' : list AllocatedBlock) :
  alloc_steps m t m' ->
  forall bound, bound <= scan_free_pos m ->
    match t with
    | [] => True
    | (addr, _) :: _ => bound <= addr
    end /\ ascending t.
Proof.
  induction 1 as [m
                 | m s e len al addr m1 rest m2 Hlen Hal Hscan Hend Halloc _ IH
                 | m vaddr phys len prot mode gpu rest m2 _ IH
                 | m vaddr sz rest m2 _ IH];
    intros bound Hbound.
  - split; exact I.
  - apply AllocFacts.Alloc_Some in Halloc as [Haddr ->].
    pose proof (AllocFacts.candidate_ge_scan _ _ Hal Hscan) as Hge. rewrite <- Haddr in Hge.
    pose proof (AllocFacts.scan_range m) as Hr.
    split; [lia|].
    destruct (IH (addr + len)) as [Hfirst Hrest].
    { rewrite AllocFacts.scan_app_one. unfold block_end, fresh_block.
      cbn [start_addr size]. rewrite wrap64_small by lia. lia. }
    cbn [ascending]. destruct rest as [|[addr' len'] rest]; [exact I|].
    now split.
  - apply IH. 
    destruct (MapFacts.first_holder m phys) as [Hall|(l1 & b & l2 & -> & Hl1 & Hb)].
    + now rewrite MapFacts.Map_no_target.
    + rewrite MapFacts.Map_target by assumption.
      destruct (is_mapped b); cbn [snd]; [assumption|].
      now rewrite (AllocFacts.scan_same_range l1 b).
  - apply IH.
    destruct (MapFacts.first_mapping m vaddr sz)
      as [Hall|(l1 & b & l2 & -> & Hl1 & Hv & Hs)].
    + now rewrite MapFacts.Unmap_no_match.
    + rewrite MapFacts.Unmap_first_match by assumption. cbn [snd].
      now rewrite (AllocFacts.scan_same_range l1 b).
Qed.

Lemma alloc_steps_ascending (m : list AllocatedBlock) (t : list (Z * Z))
    (m' : list AllocatedBlock) :
  alloc_steps m t m' -> ascending t.
Proof.
  intros H. apply (alloc_steps_bounded m t m' H 0), AllocFacts.scan_range.
Qed.

End RunFacts.

(** ** FlexibleMemory::Unmap and Find *)

Module FlexFacts.
Import FlexibleMemory.

Lemma flexible_Unmap_no_match (m : list AllocatedBlock) (vaddr size : Z) :
  Forall (fun x => ~ (map_vaddr x = vaddr /\ map_size x = size)) m ->
  Unmap m vaddr size = (None, m).
Proof.
  induction 1 as [|x m Hx _ IH]; cbn [Unmap]; [reflexivity|].
  destruct (Z.eqb_spec (map_vaddr x) vaddr);
    destruct (Z.eqb_spec (map_size x) size); cbn [andb];
    try (now rewrite IH).
  exfalso. apply Hx. now split.
Qed.

Lemma flexible_Unmap_first_match (l1 : list AllocatedBlock) (b : AllocatedBlock)
    (l2 : list AllocatedBlock) (vaddr size : Z) :
  Forall (fun x => ~ (map_vaddr x = vaddr /\ map_size x = size)) l1 ->
  map_vaddr b = vaddr -> map_size b = size ->
  Unmap (l1 ++ b :: l2) vaddr size = (Some (gpu_mode b), l1 ++ l2).
Proof.
  intros Hl1 Hv Hs.
  induction Hl1 as [|x l1 Hx _ IH]; cbn [app Unmap].
  - subst. now rewrite !Z.eqb_refl.
  - destruct (Z.eqb_spec (map_vaddr x) vaddr);
      destruct (Z.eqb_spec (map_size x) size); cbn [andb];
      try (now rewrite IH).
    exfalso. apply Hx. now split.
Qed.

Lemma flexible_first_mapping (m : list AllocatedBlock) (vaddr size : Z) :
  Forall (fun x => ~ (map_vaddr x = vaddr /\ map_size x = size)) m \/
  exists l1 b l2,
    m = l1 ++ b :: l2 /\
    Forall (fun x => ~ (map_vaddr x = vaddr /\ map_size x = size)) l1 /\
    map_vaddr b = vaddr /\ map_size b = size.
Proof.
  induction m as [|x m IH]; [left; constructor|].
  destruct (Z.eq_dec (map_vaddr x) vaddr) as [Hv|Hv];
    [destruct (Z.eq_dec (map_size x) size) as [Hs|Hs]|].
  - right. exists [], x, m. repeat split; [constructor|assumption..].
  - destruct IH as [Hall|(l1 & b & l2 & -> & Hl1 & Hb)].
    + left. constructor; [tauto|assumption].
    + right. exists (x :: l1), b, l2.
      repeat split; [constructor; [tauto|assumption]|apply Hb..].
  - destruct IH as [Hall|(l1 & b & l2 & -> & Hl1 & Hb)].
    + left. constructor; [tauto|assumption].
    + right. exists (x :: l1), b, l2.
      repeat split; [constructor; [tauto|assumption]|apply Hb..].
Qed.

Lemma flexible_Find_none (m : list AllocatedBlock) (vaddr : Z) :
  Forall (fun x => holds_vaddr x vaddr = false) m -> Find m vaddr = None.
Proof.
  induction 1 as [|x m Hx _ IH]; cbn [Find]; [reflexivity|].
  now rewrite Hx.
Qed.

Lemma flexible_Find_first (l1 : list AllocatedBlock) (b : AllocatedBlock)
    (l2 : list AllocatedBlock) (vaddr : Z) :
  Forall (fun x => holds_vaddr x vaddr = false) l1 ->
  holds_vaddr b vaddr = true ->
  Find (l1 ++ b :: l2) vaddr = Some (attributes_of b).
Proof.
  intros Hl1 Hb. induction Hl1 as [|x l1 Hx _ IH]; cbn [app Find].
  - now rewrite Hb.
  - now rewrite Hx.
Qed.

Lemma flexible_Find_Some_iff (m : list AllocatedBlock) (vaddr : Z) :
  Find m vaddr <> None <-> Exists (fun b => holds_vaddr b vaddr = true) m.
Proof.
  induction m as [|x m IH]; cbn [Find].
  - split; [congruence|intros H; inversion H].
  - destruct (holds_vaddr x vaddr) eqn:Hx.
    + split; [intros _; now left|discriminate].
    + rewrite IH. split; [now right|].
      intros H. inversion H; subst; [congruence|assumption].
Qed.

Lemma flexible_holds_vaddr_unmapped (b : AllocatedBlock) (vaddr : Z) :
  map_vaddr b = 0 -> map_size b = 0 -> holds_vaddr b vaddr = false.
Proof.
  intros Hv Hs. unfold holds_vaddr. rewrite Hv, Hs. cbn.
  destruct (Z.geb_spec vaddr 0); destruct (Z.ltb_spec vaddr 0);
    cbn [andb]; try reflexivity; lia.
Qed.

Lemma flexible_holds_vaddr_spec (b : AllocatedBlock) (vaddr : Z) :
  mapping_in_range (map_vaddr b) (map_size b) ->
  holds_vaddr b vaddr = true <-> contains_spec (map_vaddr b) (map_size b) vaddr.
Proof.
  intros (Hv & Hs & Hsum). unfold holds_vaddr, contains_spec.
  rewrite wrap64_small by lia.
  rewrite andb_true_iff, Z.geb_le, Z.ltb_lt. tauto.
Qed.

Lemma flexible_Find_Some_spec (m : list AllocatedBlock) (vaddr : Z) :
  Forall (fun e => mapping_in_range (map_vaddr e) (map_size e)) m ->
  Find m vaddr <> None <->
  exists e, In e m /\ contains_spec (map_vaddr e) (map_size e) vaddr.
Proof.
  intros Hm. rewrite flexible_Find_Some_iff, Exists_exists.
  rewrite Forall_forall in Hm.
  split; intros (e & Hin & He); exists e; (split; [assumption|]);
    now apply (flexible_holds_vaddr_spec e vaddr (Hm e Hin)).
Qed.

End FlexFacts.

(** ** Bump allocation *)

(** C2, as the code has it. For a call of [PhysicalMemory::Alloc] with a
    non-null output pointer:
    - on blocks that lie in the 64-bit address space the scanned position is
      the maximum of [start_addr + size] over all blocks, 0 if there is none;
    - the candidate is that position passed through [get_aligned_pos], which
      leaves it alone for alignment 0 and rounds it up to the next multiple
      for an alignment that is a power of two;
    - when [candidate + len] stays below 2^64, the call succeeds exactly when
      [search_start <= candidate] and [candidate + len <= search_end]; it
      then appends an unmapped block with that start and length and returns
      the candidate; otherwise it leaves the block list unchanged; for
      [len > 0] the condition is the same as the candidate lying in
      [[search_start, search_end)] with [candidate + len <= search_end];
    - a call with a null output pointer fails and changes nothing;
    - in a run of successful calls with no [Release] (only [Map] and
      [Unmap] calls in between) whose arithmetic stays below 2^64, each
      returned address is at least the previous one plus the previous
      length. *)
Theorem Alloc_bump_allocation :
  (forall m, Forall block_in_range m ->
     PhysicalMemory.scan_free_pos m = max_end_spec m) /\
  (forall pos alignment,
     0 <= pos -> pos + alignment <= 2 ^ 64 ->
     alignment = 0 \/ (exists k, 0 <= k /\ alignment = 2 ^ k) ->
     get_aligned_pos pos alignment = align_up_spec pos alignment) /\
  (forall m search_start search_end len alignment,
     let candidate := get_aligned_pos (PhysicalMemory.scan_free_pos m) alignment in
     0 <= len -> candidate + len < 2 ^ 64 ->
     (search_start <= candidate /\ candidate + len <= search_end ->
      PhysicalMemory.Alloc m search_start search_end len alignment false
      = (Some candidate,
         m ++ [PhysicalMemory.mkBlock candidate len 0 0 0
                 VirtualMemory.NoAccess Graphics.NoAccess])) /\
     (~ (search_start <= candidate /\ candidate + len <= search_end) ->
      PhysicalMemory.Alloc m search_start search_end len alignment false
      = (None, m)) /\
     (0 < len ->
      (search_start <= candidate /\ candidate + len <= search_end) <->
      (search_start <= candidate < search_end /\ candidate + len <= search_end))) /\
  (forall m search_start search_end len alignment,
     PhysicalMemory.Alloc m search_start search_end len alignment true = (None, m)) /\
  (forall m t m', alloc_steps m t m' -> ascending t).
Proof.
  split; [exact AllocFacts.scan_max_end_spec|].
  split.
  { intros pos alignment Hpos Hsum [->|(k & Hk & ->)].
    - reflexivity.
    - apply get_aligned_pos_pow2; lia. }
  split.
  { intros m s e len al candidate Hlen Hnw. split; [|split].
    - now apply AllocFacts.Alloc_fits.
    - now apply AllocFacts.Alloc_does_not_fit.
    - intros Hpos. lia. }
  split; [reflexivity|].
  exact RunFacts.alloc_steps_ascending.
Qed.

(** C2 with concrete numbers: after a block of 9 bytes at 0, a request of
    8 bytes aligned to 16 in the window [0, 64) is placed at 16, and two
    calls in a row return ascending addresses. *)
Lemma Alloc_bump_allocation_witness :
  PhysicalMemory.Alloc [PhysicalMemory.fresh_block 0 9] 0 64 8 16 false
  = (Some 16,
     [PhysicalMemory.fresh_block 0 9;
      PhysicalMemory.mkBlock 16 8 0 0 0 VirtualMemory.NoAccess Graphics.NoAccess]) /\
  ascending [(0, 9); (16, 8)].
Proof.
  destruct Alloc_bump_allocation as (_ & _ & Hcall & _ & Hseq).
  split.
  - destruct (Hcall [PhysicalMemory.fresh_block 0 9] 0 64 8 16) as (Hok & _ & _);
      [lia | vm_compute; reflexivity |].
    apply Hok. vm_compute. split; discriminate.
  - apply (Hseq [] _ [PhysicalMemory.fresh_block 0 9; PhysicalMemory.fresh_block 16 8]).
    apply (alloc_steps_next [] 0 64 9 0 0 [PhysicalMemory.fresh_block 0 9]);
      [lia | lia | vm_compute; discriminate | lia | reflexivity |].
    apply (alloc_steps_next _ 0 64 8 16 16
             [PhysicalMemory.fresh_block 0 9; PhysicalMemory.fresh_block 16 8]);
      [lia | lia | vm_compute; discriminate | lia | reflexivity |].
    apply alloc_steps_done.
Defined.

(** C2 as stated fails for a request of length 0: with one block of 16
    bytes at 0 the candidate is 16, which is not inside the window [0, 16),
    and the call still succeeds and returns 16. *)
Lemma Alloc_zero_length_at_search_end :
  let m := [PhysicalMemory.fresh_block 0 16] in
  let candidate := get_aligned_pos (PhysicalMemory.scan_free_pos m) 0 in
  ~ (0 <= candidate < 16 /\ candidate + 0 <= 16) /\
  PhysicalMemory.Alloc m 0 16 0 0 false
  = (Some 16, m ++ [PhysicalMemory.fresh_block 16 0]).
Proof.
  vm_compute. split; [|reflexivity].
  intros [[_ H] _]. discriminate H.
Qed.

(** C5. After [Alloc] returns A for [len1] and then B for [len2], and
    [Release(A, len1)] succeeds, the next successful [Alloc] returns
    [B + len2] when the second and third calls use alignment 0 or 1 and the
    block at B ends inside the 64-bit address space: the hole at A is not
    handed out again. *)
Theorem Release_of_non_trailing_block_leaks
    (m m1 m2 m3 m4 : list PhysicalMemory.AllocatedBlock)
    (s1 e1 len1 al1 A s2 e2 len2 al2 B s3 e3 len3 al3 C : Z)
    (r : Z * Z * Graphics.GpuMemoryMode) :
  (al2 = 0 \/ al2 = 1) -> (al3 = 0 \/ al3 = 1) ->
  0 <= len2 -> B + len2 < 2 ^ 64 ->
  PhysicalMemory.Alloc m s1 e1 len1 al1 false = (Some A, m1) ->
  PhysicalMemory.Alloc m1 s2 e2 len2 al2 false = (Some B, m2) ->
  PhysicalMemory.Release m2 A len1 = (Some r, m3) ->
  PhysicalMemory.Alloc m3 s3 e3 len3 al3 false = (Some C, m4) ->
  C = B + len2.
Proof.
  intros Hal2 Hal3 Hlen2 Hend H1 H2 Hrel H3.
  apply AllocFacts.Alloc_Some in H1 as [HA ->].
  apply AllocFacts.Alloc_Some in H2 as [HB ->].
  apply AllocFacts.Alloc_Some in H3 as [HC _].
  rewrite AllocFacts.candidate_unaligned in HB, HC by assumption.
  rewrite ReleaseFacts.Release_app in Hrel.
  2:{ apply Exists_exists. exists (PhysicalMemory.fresh_block A len1).
      split; [apply in_or_app; right; now left|now split]. }
  injection Hrel as _ <-.
  rewrite AllocFacts.scan_app_one in HC.
  pose proof (AllocFacts.scan_incl _ _
    (ReleaseFacts.Release_incl (m ++ [PhysicalMemory.fresh_block A len1]) A len1)) as Hle.
  pose proof (AllocFacts.scan_range (m ++ [PhysicalMemory.fresh_block A len1])) as HBr.
  rewrite <- HB in Hle, HBr.
  unfold block_end, PhysicalMemory.fresh_block in HC, Hle.
  cbn [PhysicalMemory.start_addr PhysicalMemory.size] in HC.
  rewrite wrap64_small in HC by lia. lia.
Qed.

(** C5 with concrete numbers: blocks of 16 bytes at 0 and of 32 bytes at
    16; after releasing the first, the next block is placed at 48. *)
Lemma Release_of_non_trailing_block_leaks_witness :
  let m1 := [PhysicalMemory.fresh_block 0 16] in
  let m2 := [PhysicalMemory.fresh_block 0 16; PhysicalMemory.fresh_block 16 32] in
  let m3 := [PhysicalMemory.fresh_block 16 32] in
  let m4 := [PhysicalMemory.fresh_block 16 32; PhysicalMemory.fresh_block 48 8] in
  PhysicalMemory.Alloc [] 0 4096 16 0 false = (Some 0, m1) /\
  PhysicalMemory.Alloc m1 0 4096 32 1 false = (Some 16, m2) /\
  PhysicalMemory.Release m2 0 16 = (Some (0, 0, Graphics.NoAccess), m3) /\
  PhysicalMemory.Alloc m3 0 4096 8 0 false = (Some 48, m4) /\
  48 = 16 + 32.
Proof.
  intros m1 m2 m3 m4.
  split; [reflexivity|]. split; [reflexivity|].
  split; [reflexivity|]. split; [reflexivity|].
  exact (Release_of_non_trailing_block_leaks
           [] m1 m2 m3 m4
           0 4096 16 0 0 0 4096 32 1 16 0 4096 8 0 48
           (0, 0, Graphics.NoAccess)
           (or_intror eq_refl) (or_introl eq_refl)
           ltac:(lia) ltac:(lia)
           eq_refl eq_refl eq_refl eq_refl).
Defined.

(** ** Exact-match release and unmap *)

(** C4. [PhysicalMemory::Release], [PhysicalMemory::Unmap] and
    [FlexibleMemory::Unmap] succeed only on an entry whose range (for
    [Release]: [start_addr] and [size]; for the two [Unmap]: [map_vaddr] and
    [map_size]) equals the request exactly; a request that equals no entry,
    whether or not it overlaps one, returns false and leaves the list as it
    was. A successful [Release] removes the entry and returns the mapping
    recorded in it, which is (0, 0, NoAccess) for an unmapped block and in
    particular for a block as [Alloc] created it. *)
Theorem exact_match_release_and_unmap :
  (forall m start len r m',
     PhysicalMemory.Release m start len = (Some r, m') ->
     exists l1 b l2,
       m = l1 ++ b :: l2 /\ m' = l1 ++ l2 /\ same_range start len b /\
       r = (PhysicalMemory.map_vaddr b, PhysicalMemory.map_size b,
            PhysicalMemory.gpu_mode b) /\
       (block_unmapped b -> r = (0, 0, Graphics.NoAccess))) /\
  (forall l1 l2 start len,
     Forall (fun b => ~ same_range start len b) l1 ->
     PhysicalMemory.Release (l1 ++ PhysicalMemory.fresh_block start len :: l2) start len
     = (Some (0, 0, Graphics.NoAccess), l1 ++ l2)) /\
  (forall m start len,
     Forall (fun b => ~ same_range start len b) m ->
     PhysicalMemory.Release m start len = (None, m)) /\
  (forall m vaddr size g m',
     PhysicalMemory.Unmap m vaddr size = (Some g, m') ->
     exists b, In b m /\ PhysicalMemory.map_vaddr b = vaddr /\
               PhysicalMemory.map_size b = size /\ PhysicalMemory.gpu_mode b = g) /\
  (forall m vaddr size,
     Forall (fun b => ~ (PhysicalMemory.map_vaddr b = vaddr /\
                         PhysicalMemory.map_size b = size)) m ->
     PhysicalMemory.Unmap m vaddr size = (None, m)) /\
  (forall m vaddr size g m',
     FlexibleMemory.Unmap m vaddr size = (Some g, m') ->
     exists l1 b l2,
       m = l1 ++ b :: l2 /\ m' = l1 ++ l2 /\
       FlexibleMemory.map_vaddr b = vaddr /\ FlexibleMemory.map_size b = size /\
       FlexibleMemory.gpu_mode b = g) /\
  (forall m vaddr size,
     Forall (fun b => ~ (FlexibleMemory.map_vaddr b = vaddr /\
                         FlexibleMemory.map_size b = size)) m ->
     FlexibleMemory.Unmap m vaddr size = (None, m)).
Proof.
  repeat apply conj.
  - intros m start len r m' H.
    destruct (ReleaseFacts.Release_inv m start len)
      as [[_ Hrel]|(l1 & b & l2 & -> & _ & Hb & Hrel)];
      rewrite Hrel in H; [discriminate|].
    injection H as <- <-. exists l1, b, l2.
    repeat split; try apply Hb.
    intros (-> & -> & _ & ->). reflexivity.
  - intros l1 l2 start len Hl1.
    now apply (ReleaseFacts.Release_first_match l1 (PhysicalMemory.fresh_block start len) l2).
  - exact ReleaseFacts.Release_no_match.
  - intros m vaddr size g m' H.
    destruct (MapFacts.first_mapping m vaddr size)
      as [Hall|(l1 & b & l2 & -> & Hl1 & Hv & Hs)].
    + rewrite MapFacts.Unmap_no_match in H by assumption. discriminate.
    + rewrite MapFacts.Unmap_first_match in H by assumption.
      injection H as <- _. exists b.
      repeat split; try assumption. apply in_or_app. right. now left.
  - exact MapFacts.Unmap_no_match.
  - intros m vaddr size g m' H.
    destruct (FlexFacts.flexible_first_mapping m vaddr size)
      as [Hall|(l1 & b & l2 & -> & Hl1 & Hv & Hs)].
    + rewrite FlexFacts.flexible_Unmap_no_match in H by assumption. discriminate.
    + rewrite FlexFacts.flexible_Unmap_first_match in H by assumption.
      injection H as <- <-. exists l1, b, l2. now repeat split.
  - exact FlexFacts.flexible_Unmap_no_match.
Qed.

(** C4 with concrete numbers: a request for the first half of a block of
    16 bytes releases nothing; the exact request releases the block and
    returns zeros. *)
Lemma exact_match_release_and_unmap_witness :
  PhysicalMemory.Release [PhysicalMemory.fresh_block 0 16] 0 8
  = (None, [PhysicalMemory.fresh_block 0 16]) /\
  PhysicalMemory.Release [PhysicalMemory.fresh_block 0 16] 0 16
  = (Some (0, 0, Graphics.NoAccess), []).
Proof.
  destruct exact_match_release_and_unmap as (_ & Hfresh & Hnone & _).
  split.
  - apply Hnone. constructor; [|constructor].
    unfold same_range; cbn. intros [_ H]. discriminate H.
  - apply (Hfresh [] [] 0 16). constructor.
Defined.

(** ** Find containment *)

(** C6. In a manager whose only mapped entry covers [[v, v+len)] (a
    non-empty range below 2^64, every other entry being unmapped),
    [Find v] and [Find (v+len-1)] succeed with the attributes of that
    entry, [Find (v+len)] fails, and [Find] succeeds on an address exactly
    when some entry satisfies [map_vaddr <= vaddr < map_vaddr + map_size];
    that equivalence holds in every manager whose mappings lie in the
    address space; a list of unmapped blocks matches no address. The same
    holds for both managers. *)
Theorem Find_containment :
  (forall l1 b l2 v len,
     PhysicalMemory.map_vaddr b = v -> PhysicalMemory.map_size b = len ->
     0 <= v -> 0 < len -> v + len < 2 ^ 64 ->
     Forall (fun x => PhysicalMemory.map_vaddr x = 0 /\ PhysicalMemory.map_size x = 0)
       (l1 ++ l2) ->
     let m := l1 ++ b :: l2 in
     let found :=
       Some (v, len, PhysicalMemory.prot b, PhysicalMemory.mode b,
             PhysicalMemory.gpu_mode b) in
     PhysicalMemory.Find m v = found /\
     PhysicalMemory.Find m (v + len - 1) = found /\
     PhysicalMemory.Find m (v + len) = None /\
     (forall a,
        PhysicalMemory.Find m a <> None <->
        exists e, In e m /\
          contains_spec (PhysicalMemory.map_vaddr e) (PhysicalMemory.map_size e) a)) /\
  (forall m a,
     Forall (fun e => mapping_in_range (PhysicalMemory.map_vaddr e)
                        (PhysicalMemory.map_size e)) m ->
     PhysicalMemory.Find m a <> None <->
     exists e, In e m /\
       contains_spec (PhysicalMemory.map_vaddr e) (PhysicalMemory.map_size e) a) /\
  (forall m a,
     Forall (fun x => PhysicalMemory.map_vaddr x = 0 /\ PhysicalMemory.map_size x = 0) m ->
     PhysicalMemory.Find m a = None) /\
  (forall l1 b l2 v len,
     FlexibleMemory.map_vaddr b = v -> FlexibleMemory.map_size b = len ->
     0 <= v -> 0 < len -> v + len < 2 ^ 64 ->
     Forall (fun x => FlexibleMemory.map_vaddr x = 0 /\ FlexibleMemory.map_size x = 0)
       (l1 ++ l2) ->
     let m := l1 ++ b :: l2 in
     let found :=
       Some (v, len, FlexibleMemory.prot b, FlexibleMemory.mode b,
             FlexibleMemory.gpu_mode b) in
     FlexibleMemory.Find m v = found /\
     FlexibleMemory.Find m (v + len - 1) = found /\
     FlexibleMemory.Find m (v + len) = None /\
     (forall a,
        FlexibleMemory.Find m a <> None <->
        exists e, In e m /\
          contains_spec (FlexibleMemory.map_vaddr e) (FlexibleMemory.map_size e) a)) /\
  (forall m a,
     Forall (fun e => mapping_in_range (FlexibleMemory.map_vaddr e)
                        (FlexibleMemory.map_size e)) m ->
     FlexibleMemory.Find m a <> None <->
     exists e, In e m /\
       contains_spec (FlexibleMemory.map_vaddr e) (FlexibleMemory.map_size e) a).
Proof.
  assert (Hunmapped : forall m a,
    Forall (fun x => PhysicalMemory.map_vaddr x = 0 /\ PhysicalMemory.map_size x = 0) m ->
    Forall (fun x => PhysicalMemory.holds_vaddr x a = false) m).
  { intros m a. apply Forall_impl. intros x [Hv Hs].
    now apply MapFacts.holds_vaddr_unmapped. }
  assert (Hunmapped' : forall m a,
    Forall (fun x => FlexibleMemory.map_vaddr x = 0 /\ FlexibleMemory.map_size x = 0) m ->
    Forall (fun x => FlexibleMemory.holds_vaddr x a = false) m).
  { intros m a. apply Forall_impl. intros x [Hv Hs].
    now apply FlexFacts.flexible_holds_vaddr_unmapped. }
  repeat apply conj.
  - intros l1 b l2 v len Hv Hs Hv0 Hlen Hsum Hrest m found.
    assert (Hb : mapping_in_range (PhysicalMemory.map_vaddr b) (PhysicalMemory.map_size b))
      by (unfold mapping_in_range; lia).
    apply Forall_app in Hrest as [H1 H2].
    assert (Hat : PhysicalMemory.attributes_of b = (v, len, PhysicalMemory.prot b,
              PhysicalMemory.mode b, PhysicalMemory.gpu_mode b))
      by (unfold PhysicalMemory.attributes_of; now rewrite Hv, Hs).
    repeat apply conj.
    + subst m found. rewrite <- Hat. apply MapFacts.Find_first; [now apply Hunmapped|].
      apply MapFacts.holds_vaddr_spec; [assumption|unfold contains_spec; lia].
    + subst m found. rewrite <- Hat. apply MapFacts.Find_first; [now apply Hunmapped|].
      apply MapFacts.holds_vaddr_spec; [assumption|unfold contains_spec; lia].
    + subst m. apply MapFacts.Find_none. apply Forall_app. split; [now apply Hunmapped|].
      constructor; [|now apply Hunmapped].
      destruct (PhysicalMemory.holds_vaddr b (v + len)) eqn:E; [|reflexivity].
      apply MapFacts.holds_vaddr_spec in E; [|assumption].
      unfold contains_spec in E. lia.
    + intros a. apply MapFacts.Find_Some_spec. subst m.
      apply Forall_app. split; [|constructor; [assumption|]].
      * eapply Forall_impl; [|exact H1]. intros x [-> ->]. unfold mapping_in_range. lia.
      * eapply Forall_impl; [|exact H2]. intros x [-> ->]. unfold mapping_in_range. lia.
  - intros m a. apply MapFacts.Find_Some_spec.
  - intros m a H. apply MapFacts.Find_none. now apply Hunmapped.
  - intros l1 b l2 v len Hv Hs Hv0 Hlen Hsum Hrest m found.
    assert (Hb : mapping_in_range (FlexibleMemory.map_vaddr b) (FlexibleMemory.map_size b))
      by (unfold mapping_in_range; lia).
    apply Forall_app in Hrest as [H1 H2].
    assert (Hat : FlexibleMemory.attributes_of b = (v, len, FlexibleMemory.prot b,
              FlexibleMemory.mode b, FlexibleMemory.gpu_mode b))
      by (unfold FlexibleMemory.attributes_of; now rewrite Hv, Hs).
    repeat apply conj.
    + subst m found. rewrite <- Hat. apply FlexFacts.flexible_Find_first; [now apply Hunmapped'|].
      apply FlexFacts.flexible_holds_vaddr_spec; [assumption|unfold contains_spec; lia].
    + subst m found. rewrite <- Hat. apply FlexFacts.flexible_Find_first; [now apply Hunmapped'|].
      apply FlexFacts.flexible_holds_vaddr_spec; [assumption|unfold contains_spec; lia].
    + subst m. apply FlexFacts.flexible_Find_none. apply Forall_app. split; [now apply Hunmapped'|].
      constructor; [|now apply Hunmapped'].
      destruct (FlexibleMemory.holds_vaddr b (v + len)) eqn:E; [|reflexivity].
      apply FlexFacts.flexible_holds_vaddr_spec in E; [|assumption].
      unfold contains_spec in E. lia.
    + intros a. apply FlexFacts.flexible_Find_Some_spec. subst m.
      apply Forall_app. split; [|constructor; [assumption|]].
      * eapply Forall_impl; [|exact H1]. intros x [-> ->]. unfold mapping_in_range. lia.
      * eapply Forall_impl; [|exact H2]. intros x [-> ->]. unfold mapping_in_range. lia.
  - intros m a. apply FlexFacts.flexible_Find_Some_spec.
Qed.

(** C6 with concrete numbers: one block mapped over [4096, 4096+256)
    between two unmapped blocks. *)
Lemma Find_containment_witness :
  let b := PhysicalMemory.mkBlock 16 256 4096 256 3
             VirtualMemory.ReadWrite Graphics.NoAccess in
  let m := [PhysicalMemory.fresh_block 0 16; b; PhysicalMemory.fresh_block 272 8] in
  PhysicalMemory.Find m 4096
  = Some (4096, 256, 3, VirtualMemory.ReadWrite, Graphics.NoAccess) /\
  PhysicalMemory.Find m (4096 + 256 - 1)
  = Some (4096, 256, 3, VirtualMemory.ReadWrite, Graphics.NoAccess) /\
  PhysicalMemory.Find m (4096 + 256) = None.
Proof.
  intros b m.
  destruct Find_containment as (H & _).
  destruct (H [PhysicalMemory.fresh_block 0 16] b [PhysicalMemory.fresh_block 272 8]
              4096 256 eq_refl eq_refl) as (Hlo & Hhi & Hend & _);
    [lia | lia | lia | repeat constructor |].
  exact (conj Hlo (conj Hhi Hend)).
Defined.

(** ** Map and Unmap round trip *)

(** C7, as the code has it. Let [b] be the block [Map] selects (the first
    block whose physical range holds [phys_addr]) and let no block ahead of
    it in the list already carry the mapping [(vaddr, len)]. Then after a
    successful [Map], [Unmap vaddr len] succeeds, returns the [gpu_mode]
    just recorded and clears that same block, and [Find] answers every
    address as it did before the [Map]. *)
Theorem Map_then_Unmap_round_trip
    (l1 : list PhysicalMemory.AllocatedBlock) (b : PhysicalMemory.AllocatedBlock)
    (l2 m1 : list PhysicalMemory.AllocatedBlock)
    (vaddr phys_addr len prot : Z)
    (mode : VirtualMemory.Mode) (gpu_mode : Graphics.GpuMemoryMode) :
  Forall (fun x => PhysicalMemory.holds_phys x phys_addr = false) l1 ->
  PhysicalMemory.holds_phys b phys_addr = true ->
  Forall (fun x => ~ (PhysicalMemory.map_vaddr x = vaddr /\
                      PhysicalMemory.map_size x = len)) l1 ->
  PhysicalMemory.Map (l1 ++ b :: l2) vaddr phys_addr len prot mode gpu_mode
  = (true, m1) ->
  exists m2,
    PhysicalMemory.Unmap m1 vaddr len = (Some gpu_mode, m2) /\
    forall a, PhysicalMemory.Find m2 a = PhysicalMemory.Find (l1 ++ b :: l2) a.
Proof.
  intros Hl1 Hb Hfree Hmap.
  rewrite MapFacts.Map_target in Hmap by assumption.
  destruct (PhysicalMemory.is_mapped b) eqn:Hun; [discriminate|].
  injection Hmap as <-.
  apply MapFacts.is_mapped_false in Hun as [Hv Hs].
  eexists. split.
  - now apply MapFacts.Unmap_first_match.
  - intros a. rewrite !MapFacts.Find_skip; [reflexivity| |].
    + now apply MapFacts.holds_vaddr_unmapped.
    + now apply MapFacts.holds_vaddr_unmapped.
Qed.

(** C7 with concrete numbers: the second of two blocks is mapped at 8192
    and unmapped again while the first stays mapped at 4096. *)
Lemma Map_then_Unmap_round_trip_witness :
  let a := PhysicalMemory.mkBlock 0 100 4096 16 1
             VirtualMemory.Read Graphics.NoAccess in
  let b := PhysicalMemory.fresh_block 100 100 in
  exists m2,
    PhysicalMemory.Unmap
      (snd (PhysicalMemory.Map [a; b] 8192 150 16 3
              VirtualMemory.ReadWrite Graphics.NoAccess)) 8192 16
    = (Some Graphics.NoAccess, m2) /\
    forall q, PhysicalMemory.Find m2 q = PhysicalMemory.Find [a; b] q.
Proof.
  intros a b.
  refine (Map_then_Unmap_round_trip [a] b [] _ 8192 150 16 3
            VirtualMemory.ReadWrite Graphics.NoAccess _ _ _ _).
  - repeat constructor.
  - reflexivity.
  - constructor; [|constructor]. cbn. intros [H _]. discriminate H.
  - reflexivity.
Defined.

(** C7 as stated fails when a block ahead of the selected one already
    carries the same [(vaddr, len)]: [Map] records the mapping on the second
    block, [Unmap] clears the first, and [Find 4096] then reports protection
    3 where it reported 1 before the [Map]. *)
Lemma Map_then_Unmap_clears_an_earlier_block :
  let a := PhysicalMemory.mkBlock 0 100 4096 16 1
             VirtualMemory.Read Graphics.NoAccess in
  let b := PhysicalMemory.fresh_block 100 100 in
  let m1 := [a; PhysicalMemory.mkBlock 100 100 4096 16 3
                  VirtualMemory.ReadWrite Graphics.NoAccess] in
  let m2 := [PhysicalMemory.fresh_block 0 100;
             PhysicalMemory.mkBlock 100 100 4096 16 3
               VirtualMemory.ReadWrite Graphics.NoAccess] in
  PhysicalMemory.Map [a; b] 4096 150 16 3 VirtualMemory.ReadWrite Graphics.NoAccess
  = (true, m1) /\
  PhysicalMemory.Unmap m1 4096 16 = (Some Graphics.NoAccess, m2) /\
  PhysicalMemory.Find [a; b] 4096
  = Some (4096, 16, 1, VirtualMemory.Read, Graphics.NoAccess) /\
  PhysicalMemory.Find m2 4096
  = Some (4096, 16, 3, VirtualMemory.ReadWrite, Graphics.NoAccess) /\
  PhysicalMemory.Find m2 4096 <> PhysicalMemory.Find [a; b] 4096.
Proof.
  vm_compute. repeat split; discriminate.
Qed.

(** ** The block invariant *)

Module InvariantFacts.
Import PhysicalMemory.

Lemma fresh_block_invariant (free_pos len : Z) :
  block_invariant (fresh_block free_pos len).
Proof. left. now repeat split. Qed.

Lemma cleared_block_invariant (b : AllocatedBlock) :
  block_invariant (set_mapping b 0 0 0 VirtualMemory.NoAccess Graphics.NoAccess).
Proof. left. now repeat split. Qed.

Lemma mapped_block_invariant (b : AllocatedBlock) (vaddr len prot : Z)
    (mode : VirtualMemory.Mode) (gpu_mode : Graphics.GpuMemoryMode) :
  vaddr <> 0 \/ len <> 0 ->
  block_invariant (set_mapping b vaddr len prot mode gpu_mode).
Proof.
  intros H. right. unfold is_mapped. cbn [map_vaddr map_size set_mapping].
  destruct (Z.eqb_spec vaddr 0); destruct (Z.eqb_spec len 0); cbn; try reflexivity.
  lia.
Qed.

Lemma Alloc_invariant (m : list AllocatedBlock)
    (search_start search_end len alignment : Z) (null : bool) :
  Forall block_invariant m ->
  Forall block_invariant (snd (Alloc m search_start search_end len alignment null)).
Proof.
  intros Hm. unfold Alloc. destruct null; [assumption|].
  destruct (_ && _); cbn [snd]; [|assumption].
  apply Forall_app. split; [assumption|].
  constructor; [apply fresh_block_invariant|constructor].
Qed.

Lemma Release_invariant (m : list AllocatedBlock) (start len : Z) :
  Forall block_invariant m ->
  Forall block_invariant (snd (Release m start len)).
Proof. apply incl_Forall, ReleaseFacts.Release_incl. Qed.

Lemma Unmap_invariant (m : list AllocatedBlock) (vaddr size : Z) :
  Forall block_invariant m ->
  Forall block_invariant (snd (Unmap m vaddr size)).
Proof.
  intros Hm.
  destruct (MapFacts.first_mapping m vaddr size)
    as [Hall|(l1 & b & l2 & -> & Hl1 & Hv & Hs)].
  - now rewrite MapFacts.Unmap_no_match.
  - rewrite MapFacts.Unmap_first_match by assumption. cbn [snd].
    apply Forall_app in Hm as [H1 H2]. inversion H2; subst.
    apply Forall_app. split; [assumption|].
    constructor; [apply cleared_block_invariant|assumption].
Qed.

Lemma Map_invariant (m : list AllocatedBlock) (vaddr phys_addr len prot : Z)
    (mode : VirtualMemory.Mode) (gpu_mode : Graphics.GpuMemoryMode) :
  vaddr <> 0 \/ len <> 0 ->
  Forall block_invariant m ->
  Forall block_invariant (snd (Map m vaddr phys_addr len prot mode gpu_mode)).
Proof.
  intros Hne Hm.
  destruct (MapFacts.first_holder m phys_addr)
    as [Hall|(l1 & b & l2 & -> & Hl1 & Hb)].
  - now rewrite MapFacts.Map_no_target.
  - rewrite MapFacts.Map_target by assumption.
    destruct (is_mapped b); cbn [snd]; [assumption|].
    apply Forall_app in Hm as [H1 H2]. inversion H2; subst.
    apply Forall_app. split; [assumption|].
    constructor; [now apply mapped_block_invariant|assumption].
Qed.

End InvariantFacts.

(** The invariant through the kernel layer, one combinator at a time. *)

Lemma preserves_ret {A} (a : A) : preserves_invariant (ret a).
Proof. intros w a' w' Hw [= _ <-]. exact Hw. Qed.

Lemma preserves_EXIT {A} : preserves_invariant (@EXIT A).
Proof. intros w a w' _ H. discriminate H. Qed.

Lemma preserves_bind {A B} (c : M A) (k : A -> M B) :
  preserves_invariant c -> (forall a, preserves_invariant (k a)) ->
  preserves_invariant (bind c k).
Proof.
  intros Hc Hk w b w' Hw. unfold bind.
  destruct (c w) as [|a w1] eqn:E; [discriminate|].
  intros H. exact (Hk a w1 b w' (Hc w a w1 Hw E) H).
Qed.

Lemma preserves_EXIT_IF (flag : bool) : preserves_invariant (EXIT_IF flag).
Proof.
  intros w a w' Hw. unfold EXIT_IF. destruct flag; [discriminate|].
  now intros [= _ <-].
Qed.

Lemma preserves_or_EXIT {A} (o : option A) : preserves_invariant (or_EXIT o).
Proof. destruct o; [apply preserves_ret|apply preserves_EXIT]. Qed.

Lemma preserves_physical_is_null : preserves_invariant physical_is_null.
Proof. intros w a w' Hw [= _ <-]. exact Hw. Qed.

Lemma preserves_flexible_is_null : preserves_invariant flexible_is_null.
Proof. intros w a w' Hw [= _ <-]. exact Hw. Qed.

Lemma preserves_collaborator (c : call) : preserves_invariant (collaborator c).
Proof. intros w a w' Hw [= _ <-]. exact Hw. Qed.

Lemma preserves_on_flexible {A}
    (f : list FlexibleMemory.AllocatedBlock -> A * list FlexibleMemory.AllocatedBlock) :
  preserves_invariant (on_flexible f).
Proof.
  intros w a w' Hw. unfold on_flexible.
  destruct (g_flexible_memory w) as [m|]; [|discriminate].
  destruct (f m) as [a0 m']. now intros [= _ <-].
Qed.

Lemma preserves_on_physical {A}
    (f : list PhysicalMemory.AllocatedBlock -> A * list PhysicalMemory.AllocatedBlock) :
  (forall m, Forall block_invariant m -> Forall block_invariant (snd (f m))) ->
  preserves_invariant (on_physical f).
Proof.
  intros Hf w a w' Hw. unfold on_physical.
  unfold world_invariant in Hw.
  destruct (g_physical_memory w) as [m|]; [|discriminate].
  specialize (Hf m Hw). destruct (f m) as [a0 m']. now intros [= _ <-].
Qed.

Lemma preserves_free_ranges (vaddr size : Z) (gpu_mode : Graphics.GpuMemoryMode) :
  preserves_invariant (free_ranges vaddr size gpu_mode).
Proof.
  unfold free_ranges. apply preserves_bind.
  - destruct (_ || _); [apply preserves_collaborator|apply preserves_ret].
  - intros _. destruct (negb _); [|apply preserves_ret].
    repeat (apply preserves_bind; [apply preserves_collaborator|intros _]).
    apply preserves_collaborator.
Qed.

Create HintDb kernel.

#[local] Hint Resolve preserves_ret preserves_EXIT preserves_EXIT_IF
  preserves_or_EXIT preserves_physical_is_null preserves_flexible_is_null
  preserves_collaborator preserves_on_flexible preserves_free_ranges : kernel.

Ltac kernel_step :=
  match goal with
  | |- preserves_invariant (bind _ _) => apply preserves_bind; [|intros ?]
  | |- preserves_invariant (if ?c then _ else _) => destruct c eqn:?
  | |- preserves_invariant (match ?o with Some _ => _ | None => _ end) => destruct o
  | |- preserves_invariant (let (_, _) := ?p in _) => destruct p
  | |- preserves_invariant (EXIT_NOT_IMPLEMENTED _) => apply preserves_EXIT_IF
  | |- preserves_invariant _ => solve [auto with kernel]
  end.

Lemma KernelMapNamedFlexibleMemory_invariant addr_in_out len prot flags host_addr :
  preserves_invariant (KernelMapNamedFlexibleMemory addr_in_out len prot flags host_addr).
Proof. unfold KernelMapNamedFlexibleMemory. repeat kernel_step. Qed.

Lemma KernelMunmap_invariant vaddr len :
  preserves_invariant (KernelMunmap vaddr len).
Proof.
  unfold KernelMunmap. repeat kernel_step.
  apply preserves_on_physical. intros blocks. apply InvariantFacts.Unmap_invariant.
Qed.

Lemma KernelAllocateDirectMemory_invariant search_start search_end len alignment null :
  preserves_invariant
    (KernelAllocateDirectMemory search_start search_end len alignment null).
Proof.
  unfold KernelAllocateDirectMemory. repeat kernel_step.
  apply preserves_on_physical. intros blocks. apply InvariantFacts.Alloc_invariant.
Qed.

Lemma KernelReleaseDirectMemory_invariant start len :
  preserves_invariant (KernelReleaseDirectMemory start len).
Proof.
  unfold KernelReleaseDirectMemory. repeat kernel_step.
  apply preserves_on_physical. intros blocks. apply InvariantFacts.Release_invariant.
Qed.

Lemma KernelMapDirectMemory_invariant addr len prot flags direct_memory_start alignment host_addr :
  preserves_invariant
    (KernelMapDirectMemory addr len prot flags direct_memory_start alignment host_addr).
Proof.
  unfold KernelMapDirectMemory. repeat kernel_step.
  apply preserves_on_physical. intros blocks. apply InvariantFacts.Map_invariant.
  left. now apply Z.eqb_neq.
Qed.

Lemma KernelQueryMemoryProtection_invariant addr :
  preserves_invariant (KernelQueryMemoryProtection addr).
Proof.
  unfold KernelQueryMemoryProtection. repeat kernel_step.
  apply preserves_on_physical. intros blocks. exact (fun H => H).
Qed.

Lemma serve_invariant (c : guest_call) : preserves_invariant (serve c).
Proof.
  destruct c; cbn [serve]; (apply preserves_bind; [|intros _; apply preserves_ret]).
  - apply KernelMapNamedFlexibleMemory_invariant.
  - apply KernelMunmap_invariant.
  - apply KernelAllocateDirectMemory_invariant.
  - apply KernelReleaseDirectMemory_invariant.
  - apply KernelMapDirectMemory_invariant.
  - apply KernelQueryMemoryProtection_invariant.
Qed.

Lemma serve_all_invariant (cs : list guest_call) : preserves_invariant (serve_all cs).
Proof.
  induction cs as [|c cs IH]; cbn [serve_all].
  - apply preserves_ret.
  - apply preserves_bind; [apply serve_invariant|intros _; exact IH].
Qed.

(** C1, as the code has it.
    - A [Map] whose selected block (the first block whose physical range
      holds [phys_addr]) has an active mapping returns false and leaves
      every block as it was, as does every [Map] that returns false.
    - The block invariant (no mapping, with zero [map_vaddr] and [map_size]
      and both modes [NoAccess]; or an active mapping) is preserved by
      [Alloc], [Release] and [Unmap], and by [Map] when it records a
      mapping with [vaddr != 0] or [len != 0].
    - [KernelMapDirectMemory] returns before [Map] when the host address is
      0, so every state the kernel entry points reach from subsystem start
      satisfies the invariant. *)
Theorem single_mapping_invariant :
  (forall l1 b l2 vaddr phys_addr len prot mode gpu_mode,
     Forall (fun x => PhysicalMemory.holds_phys x phys_addr = false) l1 ->
     PhysicalMemory.holds_phys b phys_addr = true ->
     PhysicalMemory.is_mapped b = true ->
     PhysicalMemory.Map (l1 ++ b :: l2) vaddr phys_addr len prot mode gpu_mode
     = (false, l1 ++ b :: l2)) /\
  (forall m m' vaddr phys_addr len prot mode gpu_mode,
     PhysicalMemory.Map m vaddr phys_addr len prot mode gpu_mode = (false, m') ->
     m' = m) /\
  (forall m, Forall block_invariant m ->
     (forall search_start search_end len alignment null,
        Forall block_invariant
          (snd (PhysicalMemory.Alloc m search_start search_end len alignment null))) /\
     (forall start len,
        Forall block_invariant (snd (PhysicalMemory.Release m start len))) /\
     (forall vaddr size,
        Forall block_invariant (snd (PhysicalMemory.Unmap m vaddr size))) /\
     (forall vaddr phys_addr len prot mode gpu_mode,
        vaddr <> 0 \/ len <> 0 ->
        Forall block_invariant
          (snd (PhysicalMemory.Map m vaddr phys_addr len prot mode gpu_mode)))) /\
  (forall cs w,
     serve_all cs Memory_SubsystemInit = Return tt w -> world_invariant w).
Proof.
  repeat apply conj.
  - intros l1 b l2 vaddr phys_addr len prot mode gpu_mode Hl1 Hb Hmapped.
    rewrite MapFacts.Map_target by assumption. now rewrite Hmapped.
  - intros m m' vaddr phys_addr len prot mode gpu_mode.
    apply MapFacts.Map_false.
  - intros m Hm. repeat apply conj; intros.
    + now apply InvariantFacts.Alloc_invariant.
    + now apply InvariantFacts.Release_invariant.
    + now apply InvariantFacts.Unmap_invariant.
    + now apply InvariantFacts.Map_invariant.
  - intros cs w H.
    apply (serve_all_invariant cs Memory_SubsystemInit tt w); [|exact H].
    constructor.
Qed.

(** C1 with concrete numbers: a second [Map] on the physical range of a
    mapped block fails and changes nothing; a first [Map] at a non-zero
    address keeps the invariant. *)
Lemma single_mapping_invariant_witness :
  let b := PhysicalMemory.mkBlock 0 100 4096 16 1
             VirtualMemory.Read Graphics.NoAccess in
  PhysicalMemory.Map [b] 8192 50 16 3 VirtualMemory.ReadWrite Graphics.NoAccess
  = (false, [b]) /\
  Forall block_invariant
    (snd (PhysicalMemory.Map [PhysicalMemory.fresh_block 0 100] 4096 50 16 1
            VirtualMemory.Read Graphics.NoAccess)).
Proof.
  intros b. destruct single_mapping_invariant as (Hbusy & _ & Hkeep & _).
  split.
  - apply (Hbusy [] b []); [constructor|reflexivity|reflexivity].
  - destruct (Hkeep [PhysicalMemory.fresh_block 0 100]) as (_ & _ & _ & Hmap).
    + constructor; [|constructor]. left. now repeat split.
    + apply Hmap. left. discriminate.
Defined.

(** C1 as stated fails for [Map]: recording the mapping [vaddr = 0],
    [len = 0] with mode [Read] on an unmapped block leaves a block that is
    neither unmapped in the sense of the invariant nor actively mapped. *)
Lemma Map_of_empty_range_breaks_invariant :
  let m := [PhysicalMemory.fresh_block 0 100] in
  Forall block_invariant m /\
  PhysicalMemory.Map m 0 50 0 1 VirtualMemory.Read Graphics.NoAccess
  = (true, [PhysicalMemory.mkBlock 0 100 0 0 1 VirtualMemory.Read Graphics.NoAccess]) /\
  ~ Forall block_invariant
      (snd (PhysicalMemory.Map m 0 50 0 1 VirtualMemory.Read Graphics.NoAccess)).
Proof.
  cbv zeta. split; [|split].
  - constructor; [|constructor]. left. now repeat split.
  - reflexivity.
  - intros H. inversion H as [|x l Hx _]; subst.
    destruct Hx as [(_ & _ & Hmode & _)|Hmapped]; discriminate.
Qed.

(** ** Running the kernel entry points *)

Ltac kernel_simpl :=
  cbv beta zeta;
  cbn [g_physical_memory g_flexible_memory calls fst snd negb orb andb].

Ltac kernel_unfold_calls :=
  unfold EXIT_NOT_IMPLEMENTED, or_EXIT;
  unfold bind, ret, EXIT, EXIT_IF, physical_is_null, flexible_is_null,
    on_physical, on_flexible, collaborator, is_nullptr;
  kernel_simpl.

Ltac kernel_unfold := unfold free_ranges; kernel_unfold_calls.

Lemma prot_switch_table (code : Z) :
  direct_prot_switch code = table_lookup protection_table code.
Proof.
  destruct code as [|p|p]; [reflexivity| |reflexivity].
  do 7 (try (destruct p as [p|p|]; try reflexivity)).
Qed.

Lemma flexible_switch_table (code : Z) :
  option_map (fun mode => (mode, Graphics.NoAccess)) (flexible_prot_switch code)
  = if direct_only code then None else table_lookup protection_table code.
Proof.
  destruct code as [|p|p]; [reflexivity| |reflexivity].
  do 7 (try (destruct p as [p|p|]; try reflexivity)).
Qed.

Lemma KernelMapDirectMemory_unknown_prot addr len prot flags direct_memory_start
    alignment host_addr w :
  direct_prot_switch prot = None ->
  KernelMapDirectMemory addr len prot flags direct_memory_start alignment host_addr w
  = Exit.
Proof.
  intros H. unfold KernelMapDirectMemory. kernel_unfold. rewrite H.
  destruct (g_physical_memory w); [|reflexivity].
  destruct addr; [|reflexivity].
  now destruct (flags =? 0).
Qed.

Lemma KernelMapNamedFlexibleMemory_unknown_prot addr_in_out len prot flags host_addr w :
  flexible_prot_switch prot = None ->
  KernelMapNamedFlexibleMemory addr_in_out len prot flags host_addr w = Exit.
Proof.
  intros H. unfold KernelMapNamedFlexibleMemory. kernel_unfold. rewrite H.
  destruct (g_flexible_memory w); [|reflexivity].
  destruct addr_in_out; [|reflexivity].
  now destruct (flags =? 0).
Qed.

(** A well-formed call of [KernelMapDirectMemory], step by step. *)
Lemma KernelMapDirectMemory_run pm fm cs in_addr len prot direct_memory_start
    alignment host_addr mode gpu_mode :
  direct_prot_switch prot = Some (mode, gpu_mode) ->
  KernelMapDirectMemory (Some in_addr) len prot 0 direct_memory_start alignment
    host_addr (mkWorld (Some pm) fm cs)
  = let reserved := cs ++ [VirtualMemory_AllocAligned in_addr len mode alignment] in
    if host_addr =? 0
    then Return (KERNEL_ERROR_ENOMEM, host_addr) (mkWorld (Some pm) fm reserved)
    else
      let (mapped, pm') :=
        PhysicalMemory.Map pm host_addr (wrap64 direct_memory_start) len prot
          mode gpu_mode in
      if mapped
      then Return (OK, host_addr)
             (mkWorld (Some pm') fm
                (match gpu_mode with
                 | Graphics.NoAccess => reserved
                 | _ => reserved ++ [GpuMemorySetAllocatedRange host_addr len]
                 end))
      else Return (KERNEL_ERROR_EBUSY, host_addr)
             (mkWorld (Some pm') fm (reserved ++ [VirtualMemory_Free host_addr])).
Proof.
  intros H. unfold KernelMapDirectMemory. kernel_unfold. rewrite H.
  cbn [Z.eqb]. kernel_simpl.
  destruct (host_addr =? 0); kernel_simpl; [reflexivity|].
  destruct (PhysicalMemory.Map _ _ _ _ _ _ _) as [[|] pm']; kernel_simpl;
    [|reflexivity].
  now destruct gpu_mode.
Qed.

(** A well-formed call of [KernelMapNamedFlexibleMemory], step by step. *)
Lemma KernelMapNamedFlexibleMemory_run pm fm cs in_addr len prot host_addr mode :
  flexible_prot_switch prot = Some mode ->
  KernelMapNamedFlexibleMemory (Some in_addr) len prot 0 host_addr
    (mkWorld pm (Some fm) cs)
  = Return (if host_addr =? 0 then KERNEL_ERROR_ENOMEM else OK, host_addr)
      (mkWorld pm
         (Some (fm ++ [FlexibleMemory.mkBlock host_addr len prot mode Graphics.NoAccess]))
         (cs ++ [VirtualMemory_Alloc in_addr len mode])).
Proof.
  intros H. unfold KernelMapNamedFlexibleMemory. kernel_unfold. rewrite H.
  cbn [Z.eqb]. unfold FlexibleMemory.Map. kernel_simpl.
  now destruct (host_addr =? 0).
Qed.

(** ** The protection decode table *)

(** C3. The [switch] of [KernelMapDirectMemory] decodes every code as the
    section 4.1 table says (0 NoAccess, 1 Read, 2 and 3 ReadWrite,
    4 Execute, 5 ExecuteRead, 6 and 7 ExecuteReadWrite, all with GPU mode
    NoAccess; 0x32 and 0x33 ReadWrite with GPU mode ReadWrite); the [switch]
    of [KernelMapNamedFlexibleMemory] decodes the same rows except 0x32 and
    0x33. A code outside the table, and 0x32 or 0x33 at the flexible entry
    point, ends the call in [Exit] whatever the other arguments are; a code
    of the table is decoded to the modes the entry point passes to the host
    reservation and records in the manager. *)
Theorem protection_decode_table :
  (forall code, direct_prot_switch code = table_lookup protection_table code) /\
  (forall code,
     option_map (fun mode => (mode, Graphics.NoAccess)) (flexible_prot_switch code)
     = if direct_only code then None else table_lookup protection_table code) /\
  (forall code addr len flags direct_memory_start alignment host_addr w,
     table_lookup protection_table code = None ->
     KernelMapDirectMemory addr len code flags direct_memory_start alignment
       host_addr w = Exit) /\
  (forall code addr_in_out len flags host_addr w,
     direct_only code = true \/ table_lookup protection_table code = None ->
     KernelMapNamedFlexibleMemory addr_in_out len code flags host_addr w = Exit) /\
  (forall code mode gpu_mode pm fm cs in_addr len direct_memory_start alignment
          host_addr,
     table_lookup protection_table code = Some (mode, gpu_mode) ->
     KernelMapDirectMemory (Some in_addr) len code 0 direct_memory_start alignment
       host_addr (mkWorld (Some pm) fm cs)
     = let reserved := cs ++ [VirtualMemory_AllocAligned in_addr len mode alignment] in
       if host_addr =? 0
       then Return (KERNEL_ERROR_ENOMEM, host_addr) (mkWorld (Some pm) fm reserved)
       else
         let (mapped, pm') :=
           PhysicalMemory.Map pm host_addr (wrap64 direct_memory_start) len code
             mode gpu_mode in
         if mapped
         then Return (OK, host_addr)
                (mkWorld (Some pm') fm
                   (match gpu_mode with
                    | Graphics.NoAccess => reserved
                    | _ => reserved ++ [GpuMemorySetAllocatedRange host_addr len]
                    end))
         else Return (KERNEL_ERROR_EBUSY, host_addr)
                (mkWorld (Some pm') fm (reserved ++ [VirtualMemory_Free host_addr]))) /\
  (forall code mode gpu_mode pm fm cs in_addr len host_addr,
     direct_only code = false ->
     table_lookup protection_table code = Some (mode, gpu_mode) ->
     gpu_mode = Graphics.NoAccess /\
     KernelMapNamedFlexibleMemory (Some in_addr) len code 0 host_addr
       (mkWorld pm (Some fm) cs)
     = Return (if host_addr =? 0 then KERNEL_ERROR_ENOMEM else OK, host_addr)
         (mkWorld pm
            (Some (fm ++ [FlexibleMemory.mkBlock host_addr len code mode gpu_mode]))
            (cs ++ [VirtualMemory_Alloc in_addr len mode]))).
Proof.
  repeat apply conj.
  - exact prot_switch_table.
  - exact flexible_switch_table.
  - intros. apply KernelMapDirectMemory_unknown_prot.
    now rewrite prot_switch_table.
  - intros code addr_in_out len flags host_addr w H.
    apply KernelMapNamedFlexibleMemory_unknown_prot.
    pose proof (flexible_switch_table code) as E.
    destruct (flexible_prot_switch code); [|reflexivity].
    cbn [option_map] in E.
    destruct H as [H|H]; [rewrite H in E|rewrite H in E; destruct (direct_only code)];
      discriminate.
  - intros code mode gpu_mode pm fm cs in_addr len dms al host H.
    apply KernelMapDirectMemory_run. now rewrite prot_switch_table.
  - intros code mode gpu_mode pm fm cs in_addr len host Hd H.
    pose proof (flexible_switch_table code) as E. rewrite Hd, H in E.
    destruct (flexible_prot_switch code) as [mode'|] eqn:Hf; [|discriminate].
    injection E as -> <-. split; [reflexivity|].
    now apply KernelMapNamedFlexibleMemory_run.
Qed.

(** C3 with concrete codes: 8 is outside the table and 0x32 is
    direct-only. *)
Lemma protection_decode_table_witness :
  KernelMapDirectMemory (Some 0) 4096 8 0 0 0 65536 Memory_SubsystemInit = Exit /\
  KernelMapNamedFlexibleMemory (Some 0) 4096 50 0 65536 Memory_SubsystemInit = Exit.
Proof.
  destruct protection_decode_table as (_ & _ & Hdirect & Hflexible & _).
  split.
  - apply Hdirect. reflexivity.
  - apply Hflexible. left. reflexivity.
Defined.

(** ** KernelMunmap *)

Lemma PhysicalMemory_Unmap_None (m m' : list PhysicalMemory.AllocatedBlock)
    (vaddr size : Z) :
  PhysicalMemory.Unmap m vaddr size = (None, m') -> m' = m.
Proof.
  destruct (MapFacts.first_mapping m vaddr size)
    as [Hall|(l1 & b & l2 & -> & Hl1 & Hv & Hs)].
  - rewrite MapFacts.Unmap_no_match by assumption. now intros [= <-].
  - rewrite MapFacts.Unmap_first_match by assumption. discriminate.
Qed.

Lemma FlexibleMemory_Unmap_None (m m' : list FlexibleMemory.AllocatedBlock)
    (vaddr size : Z) :
  FlexibleMemory.Unmap m vaddr size = (None, m') -> m' = m.
Proof.
  destruct (FlexFacts.flexible_first_mapping m vaddr size)
    as [Hall|(l1 & b & l2 & -> & Hl1 & Hv & Hs)].
  - rewrite FlexFacts.flexible_Unmap_no_match by assumption. now intros [= <-].
  - rewrite FlexFacts.flexible_Unmap_first_match by assumption. discriminate.
Qed.

Lemma free_ranges_run (vaddr size : Z) (gpu_mode : Graphics.GpuMemoryMode) (w : world) :
  vaddr <> 0 \/ size <> 0 ->
  free_ranges vaddr size gpu_mode w
  = Return tt
      (mkWorld (g_physical_memory w) (g_flexible_memory w)
         (calls w ++ teardown_spec vaddr size gpu_mode)).
Proof.
  intros Hne.
  assert (E : negb (vaddr =? 0) || negb (size =? 0) = true).
  { destruct (Z.eqb_spec vaddr 0); destruct (Z.eqb_spec size 0); cbn; try reflexivity.
    lia. }
  unfold free_ranges. rewrite E. kernel_unfold.
  destruct gpu_mode; cbn [Graphics.is_NoAccess negb teardown_spec]; kernel_simpl.
  - reflexivity.
  - now rewrite <- !app_assoc.
Qed.

(** C8. On an initialised subsystem [KernelMunmap vaddr len]:
    - returns the invalid-argument error and leaves both managers and the
      collaborators alone when [len = 0] (or [vaddr < 0], which no
      [uint64_t] satisfies);
    - otherwise tries [PhysicalMemory::Unmap] and, only when that returns
      false, [FlexibleMemory::Unmap]; the manager that matched is updated,
      the other is left alone, and the call returns OK after freeing the
      host range and, when the removed mapping's GPU mode is not NoAccess,
      waiting for the GPU and then freeing the GPU range;
    - ends in [Exit] when neither manager matches. *)
Theorem KernelMunmap_contract
    (pm : list PhysicalMemory.AllocatedBlock)
    (fm : list FlexibleMemory.AllocatedBlock) (cs : list call) (vaddr len : Z) :
  let w := mkWorld (Some pm) (Some fm) cs in
  (vaddr < 0 \/ len = 0 -> KernelMunmap vaddr len w = Return KERNEL_ERROR_EINVAL w) /\
  (0 <= vaddr -> len <> 0 ->
   (forall gpu_mode pm',
      PhysicalMemory.Unmap pm vaddr len = (Some gpu_mode, pm') ->
      KernelMunmap vaddr len w
      = Return OK
          (mkWorld (Some pm') (Some fm) (cs ++ teardown_spec vaddr len gpu_mode))) /\
   (forall gpu_mode fm',
      fst (PhysicalMemory.Unmap pm vaddr len) = None ->
      FlexibleMemory.Unmap fm vaddr len = (Some gpu_mode, fm') ->
      KernelMunmap vaddr len w
      = Return OK
          (mkWorld (Some pm) (Some fm') (cs ++ teardown_spec vaddr len gpu_mode))) /\
   (fst (PhysicalMemory.Unmap pm vaddr len) = None ->
    fst (FlexibleMemory.Unmap fm vaddr len) = None ->
    KernelMunmap vaddr len w = Exit)) /\
  (forall size,
     teardown_spec vaddr size Graphics.NoAccess = [VirtualMemory_Free vaddr] /\
     teardown_spec vaddr size Graphics.ReadWrite
     = [VirtualMemory_Free vaddr; GraphicsRunWait; WindowGetGraphicContext;
        GpuMemoryFree vaddr size]).
Proof.
  intros w. split; [|split].
  - intros H. unfold KernelMunmap. kernel_unfold.
    assert (E : (vaddr <? 0) || (len =? 0) = true).
    { destruct (Z.ltb_spec vaddr 0); destruct (Z.eqb_spec len 0); cbn;
        try reflexivity. lia. }
    now rewrite E.
  - intros Hv Hl.
    assert (E : (vaddr <? 0) || (len =? 0) = false).
    { destruct (Z.ltb_spec vaddr 0); destruct (Z.eqb_spec len 0); cbn;
        try reflexivity; lia. }
    split; [|split].
    + intros gpu_mode pm' Hp. unfold KernelMunmap. subst w.
      kernel_unfold_calls. rewrite E. kernel_simpl. rewrite Hp. kernel_simpl.
      rewrite free_ranges_run by (right; exact Hl). reflexivity.
    + intros gpu_mode fm' Hp Hf. unfold KernelMunmap. subst w.
      kernel_unfold_calls. rewrite E. kernel_simpl.
      destruct (PhysicalMemory.Unmap pm vaddr len) as [r pm'] eqn:Hu.
      cbn [fst] in Hp. subst r. apply PhysicalMemory_Unmap_None in Hu as ->.
      kernel_simpl. rewrite Hf. kernel_simpl.
      rewrite free_ranges_run by (right; exact Hl). reflexivity.
    + intros Hp Hf. unfold KernelMunmap. subst w.
      kernel_unfold_calls. rewrite E. kernel_simpl.
      destruct (PhysicalMemory.Unmap pm vaddr len) as [r pm'].
      cbn [fst] in Hp. subst r. kernel_simpl.
      destruct (FlexibleMemory.Unmap fm vaddr len) as [r fm'].
      cbn [fst] in Hf. subst r. reflexivity.
  - intros size. split; reflexivity.
Qed.

(** C8 with concrete numbers: unmapping a GPU-visible direct mapping of 16
    bytes at 4096. *)
Lemma KernelMunmap_contract_witness :
  let b := PhysicalMemory.mkBlock 0 100 4096 16 50
             VirtualMemory.ReadWrite Graphics.ReadWrite in
  KernelMunmap 4096 16 (mkWorld (Some [b]) (Some []) [])
  = Return OK
      (mkWorld (Some [PhysicalMemory.fresh_block 0 100]) (Some [])
         [VirtualMemory_Free 4096; GraphicsRunWait; WindowGetGraphicContext;
          GpuMemoryFree 4096 16]).
Proof.
  intros b.
  destruct (KernelMunmap_contract [b] [] [] 4096 16) as (_ & H & _).
  destruct H as (Hphysical & _); [lia | discriminate |].
  exact (Hphysical Graphics.ReadWrite [PhysicalMemory.fresh_block 0 100] eq_refl).
Defined.

(** ** KernelAllocateDirectMemory *)

Lemma candidate_range (m : list PhysicalMemory.AllocatedBlock) (alignment : Z) :
  0 <= get_aligned_pos (PhysicalMemory.scan_free_pos m) alignment < 2 ^ 64.
Proof.
  pose proof (AllocFacts.scan_range m) as Hs.
  unfold get_aligned_pos. destruct (negb (alignment =? 0)); [|exact Hs].
  pose proof (wrap64_range (PhysicalMemory.scan_free_pos m + (alignment - 1))) as Hx.
  split; [apply Z.land_nonneg; left; apply Hx|].
  rewrite Z.land_comm.
  pose proof (land_le_r (wrap64 (Z.lnot (wrap64 (alignment - 1))))
                (wrap64 (PhysicalMemory.scan_free_pos m + (alignment - 1)))).
  lia.
Qed.

Lemma to_int64_same_bits (z : Z) : 0 <= z < 2 ^ 64 -> wrap64 (to_int64 z) = z.
Proof.
  intros Hz. unfold to_int64. rewrite (wrap64_small z) by assumption.
  destruct (z <? 2 ^ 63); [now apply wrap64_small|].
  unfold wrap64. replace (z - 2 ^ 64) with (z + (-1) * 2 ^ 64) by lia.
  rewrite Z_mod_plus_full. now apply Z.mod_small.
Qed.

Lemma to_int64_small (z : Z) : 0 <= z < 2 ^ 63 -> to_int64 z = z.
Proof.
  intros Hz. unfold to_int64. rewrite wrap64_small by lia.
  destruct (Z.ltb_spec z (2 ^ 63)); [reflexivity|lia].
Qed.

(** C9. On an initialised subsystem [KernelAllocateDirectMemory]:
    - returns the invalid-argument error, with the physical manager and
      everything else untouched, when [search_start < 0], or
      [search_end <= search_start], or [len = 0], or the output pointer is
      null;
    - otherwise calls [PhysicalMemory::Alloc]; when that fails it returns
      the try-again error, which differs from invalid-argument, and the
      block list is unchanged; when it succeeds it returns OK and stores
      the allocated address (the same 64 bits, read as [int64_t]) through
      the output pointer. *)
Theorem KernelAllocateDirectMemory_contract
    (pm : list PhysicalMemory.AllocatedBlock)
    (fm : option (list FlexibleMemory.AllocatedBlock)) (cs : list call)
    (search_start search_end len alignment : Z) (phys_addr_out_null : bool) :
  let w := mkWorld (Some pm) fm cs in
  (search_start < 0 \/ search_end <= search_start \/ len = 0 \/
   phys_addr_out_null = true ->
   KernelAllocateDirectMemory search_start search_end len alignment
     phys_addr_out_null w
   = Return (KERNEL_ERROR_EINVAL, None) w) /\
  (int64 search_start -> int64 search_end ->
   0 <= search_start -> search_start < search_end -> len <> 0 ->
   phys_addr_out_null = false ->
   (forall addr pm',
      PhysicalMemory.Alloc pm search_start search_end len alignment false
      = (Some addr, pm') ->
      KernelAllocateDirectMemory search_start search_end len alignment
        phys_addr_out_null w
      = Return (OK, Some (to_int64 addr)) (mkWorld (Some pm') fm cs) /\
      wrap64 (to_int64 addr) = addr /\
      (addr < 2 ^ 63 -> to_int64 addr = addr)) /\
   (fst (PhysicalMemory.Alloc pm search_start search_end len alignment false) = None ->
    KernelAllocateDirectMemory search_start search_end len alignment
      phys_addr_out_null w
    = Return (KERNEL_ERROR_EAGAIN, None) w)) /\
  KERNEL_ERROR_EAGAIN <> KERNEL_ERROR_EINVAL.
Proof.
  intros w. split; [|split; [|discriminate]].
  - intros H. unfold KernelAllocateDirectMemory. subst w. kernel_unfold.
    assert (E : (search_start <? 0) || (search_end <=? search_start) || (len =? 0)
                || phys_addr_out_null = true).
    { destruct (Z.ltb_spec search_start 0); destruct (Z.leb_spec search_end search_start);
        destruct (Z.eqb_spec len 0); destruct phys_addr_out_null; cbn;
        try reflexivity.
      destruct H as [H|[H|[H|H]]]; (lia || discriminate). }
    now rewrite E.
  - intros Hs He Hs0 Hlt Hlen ->.
    assert (E : (search_start <? 0) || (search_end <=? search_start) || (len =? 0)
                || false = false).
    { destruct (Z.ltb_spec search_start 0); destruct (Z.leb_spec search_end search_start);
        destruct (Z.eqb_spec len 0); cbn; try reflexivity; lia. }
    unfold int64 in Hs, He.
    split.
    + intros addr pm' Ha. split; [|split].
      * unfold KernelAllocateDirectMemory. subst w. kernel_unfold. rewrite E.
        kernel_simpl. rewrite !wrap64_small by lia. now rewrite Ha.
      * apply to_int64_same_bits.
        apply AllocFacts.Alloc_Some in Ha as [-> _]. apply candidate_range.
      * intros Hsmall. apply to_int64_small.
        apply AllocFacts.Alloc_Some in Ha as [-> _].
        pose proof (candidate_range pm alignment). lia.
    + intros Hnone. unfold KernelAllocateDirectMemory. subst w. kernel_unfold.
      rewrite E. kernel_simpl. rewrite !wrap64_small by lia.
      destruct (PhysicalMemory.Alloc pm search_start search_end len alignment false)
        as [r pm'] eqn:Ha.
      cbn [fst] in Hnone. subst r.
      apply AllocFacts.Alloc_None in Ha as ->. reflexivity.
Qed.

(** C9 with concrete numbers: a zero length is rejected; a request that
    does not fit the window is answered with try-again; a request that fits
    is placed at 16. *)
Lemma KernelAllocateDirectMemory_contract_witness :
  let pm := [PhysicalMemory.fresh_block 0 16] in
  let w := mkWorld (Some pm) (Some []) [] in
  KernelAllocateDirectMemory 0 64 0 0 false w = Return (KERNEL_ERROR_EINVAL, None) w /\
  KernelAllocateDirectMemory 0 64 49 0 false w = Return (KERNEL_ERROR_EAGAIN, None) w /\
  KernelAllocateDirectMemory 0 64 48 0 false w
  = Return (OK, Some (to_int64 16))
      (mkWorld (Some (pm ++ [PhysicalMemory.fresh_block 16 48])) (Some []) []).
Proof.
  intros pm w. split; [|split].
  - destruct (KernelAllocateDirectMemory_contract pm (Some []) [] 0 64 0 0 false)
      as (H & _).
    apply H. right. right. left. reflexivity.
  - destruct (KernelAllocateDirectMemory_contract pm (Some []) [] 0 64 49 0 false)
      as (_ & H & _).
    destruct H as (_ & Hagain);
      [unfold int64; lia | unfold int64; lia | lia | lia | discriminate | reflexivity |].
    apply Hagain. reflexivity.
  - destruct (KernelAllocateDirectMemory_contract pm (Some []) [] 0 64 48 0 false)
      as (_ & H & _).
    destruct H as (Hok & _);
      [unfold int64; lia | unfold int64; lia | lia | lia | discriminate | reflexivity |].
    destruct (Hok 16 (pm ++ [PhysicalMemory.fresh_block 16 48]) eq_refl) as (Hrun & _).
    exact Hrun.
Defined.

(** ** A failed host reservation in KernelMapNamedFlexibleMemory *)

Lemma KernelQueryMemoryProtection_run pm fm cs addr :
  addr <> 0 ->
  KernelQueryMemoryProtection addr (mkWorld (Some pm) (Some fm) cs)
  = let found :=
      match PhysicalMemory.Find pm addr with
      | Some a => Some a
      | None => FlexibleMemory.Find fm addr
      end in
    match found with
    | None => Return (KERNEL_ERROR_EACCES, None) (mkWorld (Some pm) (Some fm) cs)
    | Some (base, len, p, _, _) =>
        Return (OK, Some (base, wrap64 (base + len - 1), p))
          (mkWorld (Some pm) (Some fm) cs)
    end.
Proof.
  intros Hne. unfold KernelQueryMemoryProtection. kernel_unfold.
  replace (addr =? 0) with false by (symmetry; now apply Z.eqb_neq).
  kernel_simpl.
  destruct (PhysicalMemory.Find pm addr) as [[[[[base len] p] md] g]|]; kernel_simpl;
    [reflexivity|].
  now destruct (FlexibleMemory.Find fm addr) as [[[[[base len] p] md] g]|].
Qed.

(** C10, as the code has it. When the host reservation of a well-formed
    [KernelMapNamedFlexibleMemory] call returns address 0:
    - [FlexibleMemory::Map] returns true whatever it is given, so the
      registration-failure branch is never taken;
    - the call returns the out-of-memory error after appending a mapping
      with [map_vaddr = 0] and the requested length to the flexible
      manager;
    - afterwards [FlexibleMemory::Find] succeeds on every address below the
      requested length, with the attributes of this mapping unless an
      earlier entry contains the address;
    - [KernelQueryMemoryProtection] returns OK on every such address other
      than 0, reporting this mapping unless an earlier one contains the
      address; on address 0 it ends in [Exit]. *)
Theorem failed_reservation_is_registered
    (pm : list PhysicalMemory.AllocatedBlock)
    (fm : list FlexibleMemory.AllocatedBlock) (cs : list call)
    (in_addr len prot : Z) (mode : VirtualMemory.Mode) :
  flexible_prot_switch prot = Some mode ->
  0 <= len < 2 ^ 64 ->
  let entry := FlexibleMemory.mkBlock 0 len prot mode Graphics.NoAccess in
  let w := mkWorld (Some pm) (Some fm) cs in
  let w' := mkWorld (Some pm) (Some (fm ++ [entry]))
              (cs ++ [VirtualMemory_Alloc in_addr len mode]) in
  (forall m v l p md g, fst (FlexibleMemory.Map m v l p md g) = true) /\
  KernelMapNamedFlexibleMemory (Some in_addr) len prot 0 0 w
  = Return (KERNEL_ERROR_ENOMEM, 0) w' /\
  (forall a, 0 <= a < len ->
     FlexibleMemory.Find (fm ++ [entry]) a <> None /\
     (Forall (fun x => FlexibleMemory.holds_vaddr x a = false) fm ->
      FlexibleMemory.Find (fm ++ [entry]) a
      = Some (0, len, prot, mode, Graphics.NoAccess))) /\
  (forall a, 0 < a < len ->
     (exists r, KernelQueryMemoryProtection a w' = Return (OK, Some r) w') /\
     (PhysicalMemory.Find pm a = None ->
      Forall (fun x => FlexibleMemory.holds_vaddr x a = false) fm ->
      KernelQueryMemoryProtection a w' = Return (OK, Some (0, len - 1, prot)) w')) /\
  KernelQueryMemoryProtection 0 w' = Exit.
Proof.
  intros Hprot Hlen entry w w'.
  assert (Hentry : forall a, 0 <= a < len -> FlexibleMemory.holds_vaddr entry a = true).
  { intros a Ha. apply FlexFacts.flexible_holds_vaddr_spec; subst entry;
      cbn [FlexibleMemory.map_vaddr FlexibleMemory.map_size];
      [unfold mapping_in_range|unfold contains_spec]; lia. }
  assert (Hfind : forall a, 0 <= a < len ->
            FlexibleMemory.Find (fm ++ [entry]) a <> None).
  { intros a Ha. apply FlexFacts.flexible_Find_Some_iff, Exists_app. right. left.
    now apply Hentry. }
  split; [reflexivity|]. split.
  { subst w w'. rewrite (KernelMapNamedFlexibleMemory_run _ _ _ _ _ _ _ mode Hprot).
    reflexivity. }
  split.
  { intros a Ha. split; [now apply Hfind|].
    intros Hfm. now apply (FlexFacts.flexible_Find_first fm entry []); [|apply Hentry]. }
  split.
  { intros a Ha. subst w'.
    rewrite KernelQueryMemoryProtection_run by lia. cbv zeta. split.
    - destruct (PhysicalMemory.Find pm a) as [[[[[base l] p] md] g]|];
        [now eexists|].
      specialize (Hfind a ltac:(lia)).
      destruct (FlexibleMemory.Find (fm ++ [entry]) a) as [[[[[base l] p] md] g]|];
        [now eexists|congruence].
    - intros Hpm Hfm. rewrite Hpm.
      rewrite (FlexFacts.flexible_Find_first fm entry []); [|assumption|apply Hentry; lia].
      subst entry. cbn [FlexibleMemory.attributes_of FlexibleMemory.map_vaddr
        FlexibleMemory.map_size FlexibleMemory.prot FlexibleMemory.mode
        FlexibleMemory.gpu_mode].
      replace (0 + len - 1) with (len - 1) by lia.
      now rewrite wrap64_small by lia. }
  reflexivity.
Qed.

(** C10 with concrete numbers: a read-only request of 16 bytes whose
    reservation fails is registered at address 0 and found at address 8. *)
Lemma failed_reservation_is_registered_witness :
  let entry := FlexibleMemory.mkBlock 0 16 1 VirtualMemory.Read Graphics.NoAccess in
  let w' := mkWorld (Some []) (Some [entry]) [VirtualMemory_Alloc 0 16 VirtualMemory.Read] in
  KernelMapNamedFlexibleMemory (Some 0) 16 1 0 0 Memory_SubsystemInit
  = Return (KERNEL_ERROR_ENOMEM, 0) w' /\
  KernelQueryMemoryProtection 8 w' = Return (OK, Some (0, 16 - 1, 1)) w'.
Proof.
  intros entry w'.
  destruct (failed_reservation_is_registered [] [] [] 0 16 1 VirtualMemory.Read
              eq_refl ltac:(lia)) as (_ & Hmap & _ & Hquery & _).
  split; [exact Hmap|].
  destruct (Hquery 8 ltac:(lia)) as (_ & H).
  apply H; [reflexivity|constructor].
Defined.

(** C10 as stated fails at address 0, which is below the requested length:
    after the failed reservation [KernelQueryMemoryProtection] does not
    return OK for it but stops at [EXIT_NOT_IMPLEMENTED(addr == nullptr)]. *)
Lemma KernelQueryMemoryProtection_of_null_exits :
  let entry := FlexibleMemory.mkBlock 0 16 1 VirtualMemory.Read Graphics.NoAccess in
  let w' := mkWorld (Some []) (Some [entry]) [VirtualMemory_Alloc 0 16 VirtualMemory.Read] in
  KernelMapNamedFlexibleMemory (Some 0) 16 1 0 0 Memory_SubsystemInit
  = Return (KERNEL_ERROR_ENOMEM, 0) w' /\
  0 <= 0 < 16 /\
  FlexibleMemory.Find [entry] 0
  = Some (0, 16, 1, VirtualMemory.Read, Graphics.NoAccess) /\
  KernelQueryMemoryProtection 0 w' = Exit.
Proof.
  cbv zeta. split; [reflexivity|]. split; [lia|]. split; reflexivity.
Qed.

(** * Further properties of the managers *)

(** ** Physical ranges under Map and Unmap *)

Module RangeFacts.
Import PhysicalMemory.

Lemma ranges_app (m1 m2 : list AllocatedBlock) :
  physical_ranges (m1 ++ m2) = physical_ranges m1 ++ physical_ranges m2.
Proof. apply map_app. Qed.

Lemma Map_ranges (m : list AllocatedBlock) (vaddr phys_addr len prot : Z)
    (mode : VirtualMemory.Mode) (gpu_mode : Graphics.GpuMemoryMode) :
  physical_ranges (snd (Map m vaddr phys_addr len prot mode gpu_mode))
  = physical_ranges m.
Proof.
  destruct (MapFacts.first_holder m phys_addr)
    as [Hall|(l1 & b & l2 & -> & Hl1 & Hb)].
  - now rewrite MapFacts.Map_no_target.
  - rewrite MapFacts.Map_target by assumption.
    destruct (is_mapped b); cbn [snd]; [reflexivity|].
    now rewrite !ranges_app.
Qed.

Lemma Unmap_ranges (m : list AllocatedBlock) (vaddr size : Z) :
  physical_ranges (snd (Unmap m vaddr size)) = physical_ranges m.
Proof.
  destruct (MapFacts.first_mapping m vaddr size)
    as [Hall|(l1 & b & l2 & -> & Hl1 & Hv & Hs)].
  - now rewrite MapFacts.Unmap_no_match.
  - rewrite MapFacts.Unmap_first_match by assumption. cbn [snd].
    now rewrite !ranges_app.
Qed.

(** The scanned position depends on the physical ranges only. *)
Lemma scan_of_ranges (m m' : list AllocatedBlock) :
  physical_ranges m = physical_ranges m' -> scan_free_pos m = scan_free_pos m'.
Proof.
  revert m'. induction m as [|b m IH]; intros [|b' m'] H; try discriminate.
  - reflexivity.
  - cbn [physical_ranges map] in H. injection H as Hs Hz Hrest.
    rewrite !AllocFacts.scan_cons. unfold block_end. rewrite Hs, Hz.
    now rewrite (IH m' Hrest).
Qed.

Lemma Alloc_of_ranges (m m' : list AllocatedBlock)
    (search_start search_end len alignment : Z) (null : bool) :
  physical_ranges m = physical_ranges m' ->
  fst (Alloc m search_start search_end len alignment null)
  = fst (Alloc m' search_start search_end len alignment null).
Proof.
  intros H. unfold Alloc. rewrite (scan_of_ranges m m' H).
  destruct null; [reflexivity|]. now destruct (_ && _).
Qed.

End RangeFacts.

(** X1. [Map] and [Unmap] never add, remove or reorder blocks and never
    change a block's [start_addr] or [size], whatever they return; the
    address a later [Alloc] hands out is therefore the same with or without
    them. *)
Theorem Map_and_Unmap_keep_physical_ranges :
  (forall m vaddr phys_addr len prot mode gpu_mode,
     physical_ranges
       (snd (PhysicalMemory.Map m vaddr phys_addr len prot mode gpu_mode))
     = physical_ranges m) /\
  (forall m vaddr size,
     physical_ranges (snd (PhysicalMemory.Unmap m vaddr size)) = physical_ranges m) /\
  (forall m vaddr phys_addr len prot mode gpu_mode
          search_start search_end len' alignment null,
     fst (PhysicalMemory.Alloc
            (snd (PhysicalMemory.Map m vaddr phys_addr len prot mode gpu_mode))
            search_start search_end len' alignment null)
     = fst (PhysicalMemory.Alloc m search_start search_end len' alignment null)) /\
  (forall m vaddr size search_start search_end len' alignment null,
     fst (PhysicalMemory.Alloc (snd (PhysicalMemory.Unmap m vaddr size))
            search_start search_end len' alignment null)
     = fst (PhysicalMemory.Alloc m search_start search_end len' alignment null)).
Proof.
  repeat apply conj; intros.
  - apply RangeFacts.Map_ranges.
  - apply RangeFacts.Unmap_ranges.
  - apply RangeFacts.Alloc_of_ranges, RangeFacts.Map_ranges.
  - apply RangeFacts.Alloc_of_ranges, RangeFacts.Unmap_ranges.
Qed.

(** ** Separation of the physical blocks *)

Module SeparationFacts.
Import PhysicalMemory.

Lemma separated_snoc (rs : list (Z * Z)) (start size : Z) :
  ranges_separated rs ->
  0 <= start -> 0 <= size -> start + size < 2 ^ 64 ->
  Forall (fun r => fst r + snd r <= start) rs ->
  ranges_separated (rs ++ [(start, size)]).
Proof.
  intros Hrs Hs Hz Hend Hall.
  induction rs as [|[s z] rs IH]; cbn [app ranges_separated].
  - repeat split; try assumption; constructor.
  - destruct Hrs as (Hr & Hlater & Hrest). inversion Hall as [|? ? Hx Hall']; subst.
    cbn [fst snd] in Hx.
    repeat split; try apply Hr.
    + apply Forall_app. split; [assumption|]. constructor; [exact Hx|constructor].
    + now apply IH.
Qed.

Lemma separated_remove (r1 : list (Z * Z)) (x : Z * Z) (r2 : list (Z * Z)) :
  ranges_separated (r1 ++ x :: r2) -> ranges_separated (r1 ++ r2).
Proof.
  induction r1 as [|[s z] r1 IH]; cbn [app ranges_separated].
  - destruct x as [s z]. now intros (_ & _ & H).
  - intros (Hr & Hlater & Hrest). repeat split; try apply Hr.
    + apply Forall_app in Hlater as [H1 H2]. inversion H2; subst.
      apply Forall_app. now split.
    + now apply IH.
Qed.

Lemma separated_in_range (m : list AllocatedBlock) :
  separated m -> Forall block_in_range m.
Proof.
  unfold separated. induction m as [|b m IH]; cbn [physical_ranges map ranges_separated].
  - constructor.
  - intros (Hr & _ & Hrest). constructor; [exact Hr|now apply IH].
Qed.

(** Around any block of a separated list: the blocks before it end at or
    before its start, the blocks after it start at or after its end. *)
Lemma separated_around (l1 : list AllocatedBlock) (b : AllocatedBlock)
    (l2 : list AllocatedBlock) :
  separated (l1 ++ b :: l2) ->
  Forall (fun x => start_addr x + size x <= start_addr b) l1 /\
  Forall (fun x => start_addr b + size b <= start_addr x) l2.
Proof.
  unfold separated. induction l1 as [|x l1 IH];
    cbn [app physical_ranges map ranges_separated].
  - intros (_ & Hlater & _). split; [constructor|].
    unfold physical_ranges in Hlater. rewrite Forall_map in Hlater. exact Hlater.
  - intros (_ & Hlater & Hrest). destruct (IH Hrest) as [H1 H2].
    split; [|exact H2]. constructor; [|exact H1].
    fold (physical_ranges (l1 ++ b :: l2)) in Hlater.
    unfold physical_ranges in Hlater. rewrite Forall_map in Hlater.
    apply Forall_app in Hlater as [_ Hb]. inversion Hb; subst. assumption.
Qed.

Lemma holds_phys_in_range (b : AllocatedBlock) (phys_addr : Z) :
  block_in_range b ->
  holds_phys b phys_addr = true <->
  start_addr b <= phys_addr < start_addr b + size b.
Proof.
  intros (Hs & Hz & Hend). unfold holds_phys.
  rewrite wrap64_small by lia.
  rewrite andb_true_iff, Z.geb_le, Z.ltb_lt. tauto.
Qed.

Lemma separated_single_holder (l1 : list AllocatedBlock) (b : AllocatedBlock)
    (l2 : list AllocatedBlock) (phys_addr : Z) :
  separated (l1 ++ b :: l2) ->
  holds_phys b phys_addr = true ->
  Forall (fun x => holds_phys x phys_addr = false) (l1 ++ l2).
Proof.
  intros Hsep Hb.
  pose proof (separated_in_range _ Hsep) as Hr.
  destruct (separated_around _ _ _ Hsep) as [H1 H2].
  apply Forall_app in Hr as [Hr1 Hr2]. inversion Hr2 as [|? ? Hrb Hr2']; subst.
  apply (holds_phys_in_range b phys_addr Hrb) in Hb.
  apply Forall_app. split.
  - rewrite Forall_forall in *. intros x Hx.
    destruct (holds_phys x phys_addr) eqn:E; [|reflexivity].
    apply (holds_phys_in_range x phys_addr (Hr1 x Hx)) in E.
    specialize (H1 x Hx). cbv beta in H1. lia.
  - rewrite Forall_forall in *. intros x Hx.
    destruct (holds_phys x phys_addr) eqn:E; [|reflexivity].
    apply (holds_phys_in_range x phys_addr (Hr2' x Hx)) in E.
    specialize (H2 x Hx). cbv beta in H2. lia.
Qed.

Lemma Alloc_separated (m : list AllocatedBlock)
    (search_start search_end len alignment : Z) (null : bool) :
  0 <= len -> 0 <= alignment ->
  scan_free_pos m + alignment <= 2 ^ 64 ->
  get_aligned_pos (scan_free_pos m) alignment + len < 2 ^ 64 ->
  separated m ->
  separated (snd (Alloc m search_start search_end len alignment null)).
Proof.
  intros Hlen Hal Hscan Hend Hsep. unfold Alloc.
  destruct null; [exact Hsep|]. destruct (_ && _); cbn [snd]; [|exact Hsep].
  unfold separated. rewrite RangeFacts.ranges_app.
  cbn [physical_ranges map fresh_block start_addr size].
  pose proof (AllocFacts.candidate_nonneg m alignment).
  pose proof (AllocFacts.candidate_ge_scan m alignment Hal Hscan) as Hge.
  apply separated_snoc; try assumption.
  unfold physical_ranges. rewrite Forall_map. cbn [fst snd].
  pose proof (separated_in_range m Hsep) as Hr.
  rewrite Forall_forall in *. intros x Hx.
  pose proof (AllocFacts.scan_member m x Hx) as Hm. unfold block_end in Hm.
  destruct (Hr x Hx) as (? & ? & ?). rewrite wrap64_small in Hm by lia. lia.
Qed.

Lemma Release_separated (m : list AllocatedBlock) (start len : Z) :
  separated m -> separated (snd (Release m start len)).
Proof.
  intros Hsep.
  destruct (ReleaseFacts.Release_inv m start len)
    as [[_ ->]|(l1 & b & l2 & -> & _ & _ & ->)]; cbn [snd]; [exact Hsep|].
  unfold separated in *. rewrite RangeFacts.ranges_app in *.
  cbn [physical_ranges map] in Hsep. now apply separated_remove in Hsep.
Qed.

End SeparationFacts.

(** X2. Separation of the physical blocks (every block inside the 64-bit
    address space and ending at or before the start of every block
    allocated after it) holds for the empty manager and is preserved by
    [Release], [Map] and [Unmap], and by every [Alloc] whose rounding and
    block end stay below 2^64. *)
Theorem separated_preserved :
  separated [] /\
  (forall m, separated m ->
     (forall search_start search_end len alignment null,
        0 <= len -> 0 <= alignment ->
        PhysicalMemory.scan_free_pos m + alignment <= 2 ^ 64 ->
        get_aligned_pos (PhysicalMemory.scan_free_pos m) alignment + len < 2 ^ 64 ->
        separated
          (snd (PhysicalMemory.Alloc m search_start search_end len alignment null))) /\
     (forall start len, separated (snd (PhysicalMemory.Release m start len))) /\
     (forall vaddr phys_addr len prot mode gpu_mode,
        separated
          (snd (PhysicalMemory.Map m vaddr phys_addr len prot mode gpu_mode))) /\
     (forall vaddr size, separated (snd (PhysicalMemory.Unmap m vaddr size)))).
Proof.
  split; [exact I|]. intros m Hsep. repeat apply conj; intros.
  - now apply SeparationFacts.Alloc_separated.
  - now apply SeparationFacts.Release_separated.
  - unfold separated. now rewrite RangeFacts.Map_ranges.
  - unfold separated. now rewrite RangeFacts.Unmap_ranges.
Qed.

(** X2 with concrete numbers: a third block of 8 bytes, aligned to 16,
    after blocks of 16 and 9 bytes. *)
Lemma separated_preserved_witness :
  separated
    (snd (PhysicalMemory.Alloc
            [PhysicalMemory.fresh_block 0 16; PhysicalMemory.fresh_block 16 9]
            0 4096 8 16 false)).
Proof.
  destruct separated_preserved as (_ & H).
  destruct (H [PhysicalMemory.fresh_block 0 16; PhysicalMemory.fresh_block 16 9])
    as (Halloc & _).
  - cbn. repeat split; try lia; repeat constructor; cbn; lia.
  - apply Halloc; [lia | lia | vm_compute; discriminate | vm_compute; reflexivity].
Defined.

(** X3. In a separated manager no physical address lies in two blocks: if
    a block holds [phys_addr], no other block of the list does, so [Map] on
    that address is decided by that block alone: it fails without a change
    when the block is mapped, and records the mapping on it otherwise. *)
Theorem separated_blocks_do_not_overlap
    (l1 : list PhysicalMemory.AllocatedBlock) (b : PhysicalMemory.AllocatedBlock)
    (l2 : list PhysicalMemory.AllocatedBlock) (phys_addr : Z) :
  separated (l1 ++ b :: l2) ->
  PhysicalMemory.holds_phys b phys_addr = true ->
  Forall (fun x => PhysicalMemory.holds_phys x phys_addr = false) (l1 ++ l2) /\
  (forall vaddr len prot mode gpu_mode,
     PhysicalMemory.Map (l1 ++ b :: l2) vaddr phys_addr len prot mode gpu_mode
     = if PhysicalMemory.is_mapped b
       then (false, l1 ++ b :: l2)
       else (true,
             l1 ++ PhysicalMemory.set_mapping b vaddr len prot mode gpu_mode :: l2)).
Proof.
  intros Hsep Hb.
  pose proof (SeparationFacts.separated_single_holder l1 b l2 phys_addr Hsep Hb) as H.
  split; [exact H|].
  intros. apply Forall_app in H as [H1 _]. now apply MapFacts.Map_target.
Qed.

(** X3 with concrete numbers: address 20 lies in the second of three
    blocks only. *)
Lemma separated_blocks_do_not_overlap_witness :
  Forall (fun x => PhysicalMemory.holds_phys x 20 = false)
    ([PhysicalMemory.fresh_block 0 16] ++ [PhysicalMemory.fresh_block 32 8]).
Proof.
  refine (proj1 (separated_blocks_do_not_overlap
                   [PhysicalMemory.fresh_block 0 16]
                   (PhysicalMemory.fresh_block 16 9)
                   [PhysicalMemory.fresh_block 32 8] 20 _ _)).
  - cbn. repeat split; try lia; repeat constructor; cbn; lia.
  - reflexivity.
Defined.

(** ** Round trips of the physical manager *)

Lemma Release_after_Alloc
    (m m1 : list PhysicalMemory.AllocatedBlock)
    (search_start search_end len alignment addr : Z) :
  0 < len -> 0 <= alignment ->
  PhysicalMemory.scan_free_pos m + alignment <= 2 ^ 64 ->
  addr + len < 2 ^ 64 ->
  PhysicalMemory.Alloc m search_start search_end len alignment false
  = (Some addr, m1) ->
  PhysicalMemory.Release m1 addr len = (Some (0, 0, Graphics.NoAccess), m).
Proof.
  intros Hlen Hal Hscan Hend Halloc.
  apply AllocFacts.Alloc_Some in Halloc as [Haddr ->].
  pose proof (AllocFacts.candidate_ge_scan m alignment Hal Hscan) as Hge.
  rewrite <- Haddr in Hge. pose proof (AllocFacts.scan_range m) as Hr.
  rewrite <- (app_nil_r m) at 2.
  apply (ReleaseFacts.Release_first_match m (PhysicalMemory.fresh_block addr len) []);
    [|now split].
  apply Forall_forall. intros x Hx [Hs Hz].
  pose proof (AllocFacts.scan_member m x Hx) as Hm. unfold block_end in Hm.
  rewrite Hs, Hz, wrap64_small in Hm by lia. lia.
Qed.

(** X4. Top-of-stack reclamation. When [Alloc] has just appended a block of
    non-zero length (rounding and block end below 2^64), [Release] with the
    returned address and that length removes exactly this block: it returns
    the zero mapping and the block list is the one before the [Alloc], so
    repeating the [Alloc] hands out the same address again. *)
Theorem Alloc_then_Release_restores
    (m m1 : list PhysicalMemory.AllocatedBlock)
    (search_start search_end len alignment addr : Z) :
  0 < len -> 0 <= alignment ->
  PhysicalMemory.scan_free_pos m + alignment <= 2 ^ 64 ->
  addr + len < 2 ^ 64 ->
  PhysicalMemory.Alloc m search_start search_end len alignment false
  = (Some addr, m1) ->
  PhysicalMemory.Release m1 addr len = (Some (0, 0, Graphics.NoAccess), m) /\
  PhysicalMemory.Alloc (snd (PhysicalMemory.Release m1 addr len))
    search_start search_end len alignment false
  = (Some addr, m1).
Proof.
  intros Hlen Hal Hscan Hend Halloc.
  pose proof (Release_after_Alloc m m1 search_start search_end len alignment addr
                Hlen Hal Hscan Hend Halloc) as Hrel.
  split; [exact Hrel|]. now rewrite Hrel.
Qed.

(** X4 with concrete numbers: a block of 32 bytes allocated after one of
    16 bytes and released again. *)
Lemma Alloc_then_Release_restores_witness :
  PhysicalMemory.Release
    [PhysicalMemory.fresh_block 0 16; PhysicalMemory.fresh_block 16 32] 16 32
  = (Some (0, 0, Graphics.NoAccess), [PhysicalMemory.fresh_block 0 16]).
Proof.
  refine (proj1 (Alloc_then_Release_restores
                   [PhysicalMemory.fresh_block 0 16] _ 0 4096 32 0 16 _ _ _ _ _));
    [lia | lia | vm_compute; discriminate | lia | reflexivity].
Defined.

(** X5. For an alignment that is a power of two (rounding below 2^64) the
    address a successful [Alloc] returns is a multiple of the alignment, is
    not below the scanned position (the largest end of an existing block)
    and is less than one alignment above it. *)
Theorem Alloc_returns_aligned_address
    (m m1 : list PhysicalMemory.AllocatedBlock)
    (search_start search_end len k addr : Z) (null : bool) :
  0 <= k ->
  PhysicalMemory.scan_free_pos m + 2 ^ k <= 2 ^ 64 ->
  PhysicalMemory.Alloc m search_start search_end len (2 ^ k) null = (Some addr, m1) ->
  addr mod 2 ^ k = 0 /\
  PhysicalMemory.scan_free_pos m <= addr < PhysicalMemory.scan_free_pos m + 2 ^ k.
Proof.
  intros Hk Hscan Halloc.
  apply AllocFacts.Alloc_Some in Halloc as [-> _].
  pose proof (AllocFacts.scan_range m) as Hr.
  assert (Hpow : 0 < 2 ^ k) by (apply Z.pow_pos_nonneg; lia).
  split.
  - rewrite get_aligned_pos_pow2 by lia. unfold align_up_spec.
    replace (2 ^ k =? 0) with false by (symmetry; apply Z.eqb_neq; lia).
    rewrite Z.mul_comm. apply Z_mod_mult.
  - pose proof (get_aligned_pos_bounds (PhysicalMemory.scan_free_pos m) (2 ^ k)).
    lia.
Qed.

(** X5 with concrete numbers: after blocks ending at 25, alignment 16
    gives 32. *)
Lemma Alloc_returns_aligned_address_witness :
  32 mod 2 ^ 4 = 0 /\
  PhysicalMemory.scan_free_pos
    [PhysicalMemory.fresh_block 0 16; PhysicalMemory.fresh_block 16 9] <= 32
  < PhysicalMemory.scan_free_pos
      [PhysicalMemory.fresh_block 0 16; PhysicalMemory.fresh_block 16 9] + 2 ^ 4.
Proof.
  refine (Alloc_returns_aligned_address
            [PhysicalMemory.fresh_block 0 16; PhysicalMemory.fresh_block 16 9]
            _ 0 4096 8 4 32 false _ _ _);
    [lia | vm_compute; discriminate | reflexivity].
Defined.

(** X6. Remapping needs an [Unmap] first, and an [Unmap] is enough: when
    the block [Map] selects for [phys_addr] carries the mapping
    [(vaddr, size)] and no block ahead of it carries the same one,
    [Unmap vaddr size] returns that block's GPU mode, and afterwards every
    [Map] on [phys_addr] succeeds and records its mapping on that block. *)
Theorem Unmap_then_Map_again
    (l1 : list PhysicalMemory.AllocatedBlock) (b : PhysicalMemory.AllocatedBlock)
    (l2 : list PhysicalMemory.AllocatedBlock) (phys_addr vaddr size : Z) :
  Forall (fun x => PhysicalMemory.holds_phys x phys_addr = false) l1 ->
  PhysicalMemory.holds_phys b phys_addr = true ->
  PhysicalMemory.map_vaddr b = vaddr -> PhysicalMemory.map_size b = size ->
  Forall (fun x => ~ (PhysicalMemory.map_vaddr x = vaddr /\
                      PhysicalMemory.map_size x = size)) l1 ->
  exists m1,
    PhysicalMemory.Unmap (l1 ++ b :: l2) vaddr size
    = (Some (PhysicalMemory.gpu_mode b), m1) /\
    forall vaddr' len' prot' mode' gpu_mode',
      PhysicalMemory.Map m1 vaddr' phys_addr len' prot' mode' gpu_mode'
      = (true,
         l1 ++ PhysicalMemory.set_mapping b vaddr' len' prot' mode' gpu_mode' :: l2).
Proof.
  intros Hl1 Hb Hv Hs Hfree. eexists. split.
  - now apply MapFacts.Unmap_first_match.
  - intros. now rewrite MapFacts.Map_target.
Qed.

(** X6 with concrete numbers: a block mapped at 4096 is unmapped and mapped
    again at 8192. *)
Lemma Unmap_then_Map_again_witness :
  let b := PhysicalMemory.mkBlock 0 100 4096 16 1
             VirtualMemory.Read Graphics.NoAccess in
  exists m1,
    PhysicalMemory.Unmap [b] 4096 16 = (Some Graphics.NoAccess, m1) /\
    forall vaddr' len' prot' mode' gpu_mode',
      PhysicalMemory.Map m1 vaddr' 50 len' prot' mode' gpu_mode'
      = (true, [PhysicalMemory.set_mapping b vaddr' len' prot' mode' gpu_mode']).
Proof.
  intros b.
  refine (Unmap_then_Map_again [] b [] 50 4096 16 _ _ _ _ _);
    [constructor | reflexivity | reflexivity | reflexivity | constructor].
Defined.

(** ** Find after Map *)

Lemma PhysicalMemory_Find_None (m : list PhysicalMemory.AllocatedBlock) (vaddr : Z) :
  PhysicalMemory.Find m vaddr = None ->
  Forall (fun x => PhysicalMemory.holds_vaddr x vaddr = false) m.
Proof.
  induction m as [|x m IH]; cbn [PhysicalMemory.Find]; [constructor|].
  destruct (PhysicalMemory.holds_vaddr x vaddr) eqn:E; [discriminate|].
  intros H. constructor; [exact E|now apply IH].
Qed.

Lemma FlexibleMemory_Find_app (m m' : list FlexibleMemory.AllocatedBlock) (vaddr : Z) :
  FlexibleMemory.Find (m ++ m') vaddr
  = match FlexibleMemory.Find m vaddr with
    | Some r => Some r
    | None => FlexibleMemory.Find m' vaddr
    end.
Proof.
  induction m as [|x m IH]; cbn [app FlexibleMemory.Find]; [reflexivity|].
  now destruct (FlexibleMemory.holds_vaddr x vaddr).
Qed.

Lemma Find_after_Map
    (m m1 : list PhysicalMemory.AllocatedBlock) (vaddr phys_addr len prot : Z)
    (mode : VirtualMemory.Mode) (gpu_mode : Graphics.GpuMemoryMode) :
  0 <= vaddr -> 0 < len -> vaddr + len < 2 ^ 64 ->
  PhysicalMemory.Map m vaddr phys_addr len prot mode gpu_mode = (true, m1) ->
  (forall a, ~ (vaddr <= a < vaddr + len) ->
     PhysicalMemory.Find m1 a = PhysicalMemory.Find m a) /\
  (forall a, vaddr <= a < vaddr + len ->
     PhysicalMemory.Find m a = None ->
     PhysicalMemory.Find m1 a = Some (vaddr, len, prot, mode, gpu_mode)).
Proof.
  intros Hv Hlen Hend Hmap.
  destruct (MapFacts.first_holder m phys_addr)
    as [Hall|(l1 & b & l2 & -> & Hl1 & Hb)].
  { rewrite MapFacts.Map_no_target in Hmap by assumption. discriminate. }
  rewrite MapFacts.Map_target in Hmap by assumption.
  destruct (PhysicalMemory.is_mapped b) eqn:Hun; [discriminate|].
  injection Hmap as <-.
  apply MapFacts.is_mapped_false in Hun as [Hbv Hbs].
  pose proof (fun a => MapFacts.holds_vaddr_unmapped b a Hbv Hbs) as Hold.
  assert (Hnew : forall a,
    PhysicalMemory.holds_vaddr
      (PhysicalMemory.set_mapping b vaddr len prot mode gpu_mode) a = true
    <-> vaddr <= a < vaddr + len).
  { intros a. apply (MapFacts.holds_vaddr_spec
      (PhysicalMemory.set_mapping b vaddr len prot mode gpu_mode) a).
    unfold mapping_in_range; cbn; lia. }
  split.
  - intros a Hout. rewrite !MapFacts.Find_skip; [reflexivity|apply Hold|].
    destruct (PhysicalMemory.holds_vaddr _ a) eqn:E; [|reflexivity].
    apply Hnew in E. contradiction.
  - intros a Hin Hnone.
    rewrite MapFacts.Find_skip in Hnone by apply Hold.
    apply PhysicalMemory_Find_None, Forall_app in Hnone as [H1 _].
    now apply MapFacts.Find_first; [|apply Hnew].
Qed.

(** X7. A successful [PhysicalMemory::Map] of a non-empty range below 2^64
    changes the answers of [Find] on the addresses of that range only: an
    address outside [[vaddr, vaddr+len)] is answered as before, and an
    address inside it that no block contained before is answered with the
    new mapping's attributes. *)
Theorem Map_then_Find
    (m m1 : list PhysicalMemory.AllocatedBlock) (vaddr phys_addr len prot : Z)
    (mode : VirtualMemory.Mode) (gpu_mode : Graphics.GpuMemoryMode) :
  0 <= vaddr -> 0 < len -> vaddr + len < 2 ^ 64 ->
  PhysicalMemory.Map m vaddr phys_addr len prot mode gpu_mode = (true, m1) ->
  (forall a, ~ (vaddr <= a < vaddr + len) ->
     PhysicalMemory.Find m1 a = PhysicalMemory.Find m a) /\
  (forall a, vaddr <= a < vaddr + len ->
     PhysicalMemory.Find m a = None ->
     PhysicalMemory.Find m1 a = Some (vaddr, len, prot, mode, gpu_mode)).
Proof. apply Find_after_Map. Qed.

(** X7 with concrete numbers: mapping 16 bytes at 8192 on the second block
    leaves the answer at 4096 alone and answers 8200 with the new mapping. *)
Lemma Map_then_Find_witness :
  let a := PhysicalMemory.mkBlock 0 100 4096 16 1
             VirtualMemory.Read Graphics.NoAccess in
  let m := [a; PhysicalMemory.fresh_block 100 100] in
  let m1 := [a; PhysicalMemory.mkBlock 100 100 8192 16 3
                  VirtualMemory.ReadWrite Graphics.NoAccess] in
  PhysicalMemory.Find m1 4096 = PhysicalMemory.Find m 4096 /\
  PhysicalMemory.Find m1 8200
  = Some (8192, 16, 3, VirtualMemory.ReadWrite, Graphics.NoAccess).
Proof.
  intros a m m1.
  destruct (Map_then_Find m m1 8192 150 16 3 VirtualMemory.ReadWrite
              Graphics.NoAccess) as [Hout Hin];
    [lia | lia | lia | reflexivity |].
  split; [apply Hout; lia|apply Hin; [lia|reflexivity]].
Defined.

(** ** The flexible manager *)

(** X8. [FlexibleMemory::Map] appends, so it never hides a mapping that
    [Find] reported before; an address that no entry contained is answered
    with the new mapping when it lies in the new range (non-empty, below
    2^64). An [Unmap] of the same [(vaddr, len)] right after the [Map]
    always succeeds, and when no entry carried that pair before, it returns
    the GPU mode just recorded and restores the list. *)
Theorem flexible_Map_then_Find_and_Unmap
    (m : list FlexibleMemory.AllocatedBlock) (vaddr len prot : Z)
    (mode : VirtualMemory.Mode) (gpu_mode : Graphics.GpuMemoryMode) :
  let m1 := snd (FlexibleMemory.Map m vaddr len prot mode gpu_mode) in
  (forall a r, FlexibleMemory.Find m a = Some r -> FlexibleMemory.Find m1 a = Some r) /\
  (0 <= vaddr -> 0 < len -> vaddr + len < 2 ^ 64 ->
   forall a, vaddr <= a < vaddr + len ->
     FlexibleMemory.Find m a = None ->
     FlexibleMemory.Find m1 a = Some (vaddr, len, prot, mode, gpu_mode)) /\
  fst (FlexibleMemory.Unmap m1 vaddr len) <> None /\
  (Forall (fun x => ~ (FlexibleMemory.map_vaddr x = vaddr /\
                       FlexibleMemory.map_size x = len)) m ->
   FlexibleMemory.Unmap m1 vaddr len = (Some gpu_mode, m)).
Proof.
  intros m1. subst m1. unfold FlexibleMemory.Map. cbn [snd].
  set (e := FlexibleMemory.mkBlock vaddr len prot mode gpu_mode).
  repeat apply conj.
  - intros a r H. now rewrite FlexibleMemory_Find_app, H.
  - intros Hv Hlen Hend a Hin Hnone.
    rewrite FlexibleMemory_Find_app, Hnone. cbn [FlexibleMemory.Find].
    assert (He : FlexibleMemory.holds_vaddr e a = true).
    { apply FlexFacts.flexible_holds_vaddr_spec; subst e;
        [unfold mapping_in_range|unfold contains_spec]; cbn; lia. }
    now rewrite He.
  - destruct (FlexFacts.flexible_first_mapping m vaddr len)
      as [Hall|(l1 & b & l2 & -> & Hl1 & Hv & Hs)].
    + rewrite (FlexFacts.flexible_Unmap_first_match m e []) by (assumption || reflexivity).
      discriminate.
    + rewrite <- app_assoc. cbn [app].
      rewrite FlexFacts.flexible_Unmap_first_match by assumption. discriminate.
  - intros Hall.
    rewrite (FlexFacts.flexible_Unmap_first_match m e []) by (assumption || reflexivity).
    now rewrite app_nil_r.
Qed.

(** X8 with concrete numbers: a second flexible mapping is found and
    unmapped again. *)
Lemma flexible_Map_then_Find_and_Unmap_witness :
  let m := [FlexibleMemory.mkBlock 4096 16 1 VirtualMemory.Read Graphics.NoAccess] in
  let m1 := snd (FlexibleMemory.Map m 8192 32 3 VirtualMemory.ReadWrite
                   Graphics.NoAccess) in
  FlexibleMemory.Find m1 8200
  = Some (8192, 32, 3, VirtualMemory.ReadWrite, Graphics.NoAccess) /\
  FlexibleMemory.Unmap m1 8192 32 = (Some Graphics.NoAccess, m).
Proof.
  intros m m1.
  destruct (flexible_Map_then_Find_and_Unmap m 8192 32 3 VirtualMemory.ReadWrite
              Graphics.NoAccess) as (_ & Hfind & _ & Hunmap).
  split.
  - apply Hfind; [lia | lia | lia | lia | reflexivity].
  - apply Hunmap. constructor; [|constructor]. cbn. intros [H _]. discriminate H.
Defined.

(** * Further properties of the kernel entry points *)

(** The collaborator calls of [free_ranges], in every case. *)
Lemma free_ranges_calls (vaddr size : Z) (gpu_mode : Graphics.GpuMemoryMode) (w : world) :
  free_ranges vaddr size gpu_mode w
  = Return tt
      (mkWorld (g_physical_memory w) (g_flexible_memory w)
         (calls w
          ++ (if (vaddr =? 0) && (size =? 0) then [] else [VirtualMemory_Free vaddr])
          ++ match gpu_mode with
             | Graphics.NoAccess => []
             | _ => [GraphicsRunWait; WindowGetGraphicContext; GpuMemoryFree vaddr size]
             end)).
Proof.
  unfold free_ranges. kernel_unfold_calls.
  destruct (vaddr =? 0); destruct (size =? 0); destruct gpu_mode;
    cbn [negb orb andb Graphics.is_NoAccess]; kernel_simpl;
    rewrite <- ?app_assoc; cbn [app]; rewrite ?app_nil_r; try reflexivity;
    destruct w; reflexivity.
Qed.

(** ** KernelReleaseDirectMemory *)

Lemma KernelReleaseDirectMemory_run pm fm cs start len :
  0 <= start < 2 ^ 63 -> len <> 0 ->
  KernelReleaseDirectMemory start len (mkWorld (Some pm) fm cs)
  = match PhysicalMemory.Release pm start len with
    | (Some (vaddr, size, gpu_mode), pm') =>
        Return OK
          (mkWorld (Some pm') fm
             (cs
              ++ (if (vaddr =? 0) && (size =? 0) then []
                  else [VirtualMemory_Free vaddr])
              ++ match gpu_mode with
                 | Graphics.NoAccess => []
                 | _ => [GraphicsRunWait; WindowGetGraphicContext;
                         GpuMemoryFree vaddr size]
                 end))
    | (None, _) => Exit
    end.
Proof.
  intros Hs Hl. unfold KernelReleaseDirectMemory. kernel_unfold_calls.
  assert (E : (start <? 0) || (len =? 0) = false).
  { destruct (Z.ltb_spec start 0); destruct (Z.eqb_spec len 0); cbn;
      try reflexivity; lia. }
  rewrite E. kernel_simpl. rewrite wrap64_small by lia.
  destruct (PhysicalMemory.Release pm start len) as [[[[vaddr size] gpu_mode]|] pm'];
    kernel_simpl; [|reflexivity].
  now rewrite free_ranges_calls.
Qed.

(** X9. On a subsystem whose physical manager exists,
    [KernelReleaseDirectMemory start len]:
    - returns the invalid-argument error and changes nothing when
      [start < 0] or [len = 0];
    - otherwise removes the block [PhysicalMemory::Release] matches and
      returns OK; it frees the host range only when the block recorded a
      mapping ([map_vaddr] or [map_size] non-zero) and waits for the GPU and
      frees the GPU range only when the recorded GPU mode is not NoAccess, so
      releasing an unmapped block calls no collaborator;
    - ends in [Exit] when no block matches [(start, len)] exactly. *)
Theorem KernelReleaseDirectMemory_contract
    (pm : list PhysicalMemory.AllocatedBlock)
    (fm : option (list FlexibleMemory.AllocatedBlock)) (cs : list call)
    (start len : Z) :
  let w := mkWorld (Some pm) fm cs in
  (start < 0 \/ len = 0 ->
   KernelReleaseDirectMemory start len w = Return KERNEL_ERROR_EINVAL w) /\
  (0 <= start < 2 ^ 63 -> len <> 0 ->
   (forall vaddr size gpu_mode pm',
      PhysicalMemory.Release pm start len = (Some (vaddr, size, gpu_mode), pm') ->
      KernelReleaseDirectMemory start len w
      = Return OK
          (mkWorld (Some pm') fm
             (cs
              ++ (if (vaddr =? 0) && (size =? 0) then []
                  else [VirtualMemory_Free vaddr])
              ++ match gpu_mode with
                 | Graphics.NoAccess => []
                 | _ => [GraphicsRunWait; WindowGetGraphicContext;
                         GpuMemoryFree vaddr size]
                 end))) /\
   (forall pm',
      PhysicalMemory.Release pm start len = (Some (0, 0, Graphics.NoAccess), pm') ->
      KernelReleaseDirectMemory start len w = Return OK (mkWorld (Some pm') fm cs)) /\
   (fst (PhysicalMemory.Release pm start len) = None ->
    KernelReleaseDirectMemory start len w = Exit)).
Proof.
  intros w. split.
  - intros H. unfold KernelReleaseDirectMemory. subst w. kernel_unfold_calls.
    assert (E : (start <? 0) || (len =? 0) = true).
    { destruct (Z.ltb_spec start 0); destruct (Z.eqb_spec len 0); cbn;
        try reflexivity. lia. }
    now rewrite E.
  - intros Hs Hl. subst w. rewrite KernelReleaseDirectMemory_run by assumption.
    repeat apply conj.
    + intros vaddr size gpu_mode pm' H. now rewrite H.
    + intros pm' H. rewrite H. cbn [Z.eqb andb app]. now rewrite app_nil_r.
    + intros H. destruct (PhysicalMemory.Release pm start len) as [r pm'].
      cbn [fst] in H. now subst r.
Qed.

(** X9 with concrete numbers: releasing a block that is still mapped and
    GPU-visible frees the host range and the GPU range; a request for half
    of it ends the session. *)
Lemma KernelReleaseDirectMemory_contract_witness :
  let b := PhysicalMemory.mkBlock 0 100 4096 16 50
             VirtualMemory.ReadWrite Graphics.ReadWrite in
  let w := mkWorld (Some [b]) (Some []) [] in
  KernelReleaseDirectMemory 0 100 w
  = Return OK
      (mkWorld (Some []) (Some [])
         [VirtualMemory_Free 4096; GraphicsRunWait; WindowGetGraphicContext;
          GpuMemoryFree 4096 16]) /\
  KernelReleaseDirectMemory 0 50 w = Exit.
Proof.
  intros b w. split.
  - destruct (KernelReleaseDirectMemory_contract [b] (Some []) [] 0 100) as (_ & H).
    destruct H as (Hok & _); [lia | discriminate |].
    exact (Hok 4096 16 Graphics.ReadWrite [] eq_refl).
  - destruct (KernelReleaseDirectMemory_contract [b] (Some []) [] 0 50) as (_ & H).
    destruct H as (_ & _ & Hexit); [lia | discriminate |].
    apply Hexit. reflexivity.
Defined.

(** ** KernelQueryMemoryProtection *)

Lemma PhysicalMemory_Find_Some (m : list PhysicalMemory.AllocatedBlock)
    (vaddr base len p : Z) (md : VirtualMemory.Mode) (g : Graphics.GpuMemoryMode) :
  PhysicalMemory.Find m vaddr = Some (base, len, p, md, g) ->
  base <= vaddr < wrap64 (base + len).
Proof.
  induction m as [|x m IH]; cbn [PhysicalMemory.Find]; [discriminate|].
  destruct (PhysicalMemory.holds_vaddr x vaddr) eqn:E; [|exact IH].
  unfold PhysicalMemory.attributes_of. intros [= <- <- _ _ _].
  unfold PhysicalMemory.holds_vaddr in E.
  apply andb_true_iff in E as [E1 E2].
  apply Z.geb_le in E1. apply Z.ltb_lt in E2. lia.
Qed.

Lemma FlexibleMemory_Find_Some (m : list FlexibleMemory.AllocatedBlock)
    (vaddr base len p : Z) (md : VirtualMemory.Mode) (g : Graphics.GpuMemoryMode) :
  FlexibleMemory.Find m vaddr = Some (base, len, p, md, g) ->
  base <= vaddr < wrap64 (base + len).
Proof.
  induction m as [|x m IH]; cbn [FlexibleMemory.Find]; [discriminate|].
  destruct (FlexibleMemory.holds_vaddr x vaddr) eqn:E; [|exact IH].
  unfold FlexibleMemory.attributes_of. intros [= <- <- _ _ _].
  unfold FlexibleMemory.holds_vaddr in E.
  apply andb_true_iff in E as [E1 E2].
  apply Z.geb_le in E1. apply Z.ltb_lt in E2. lia.
Qed.

(** The last byte [base + len - 1] the query reports is not below an
    address the range contains. *)
Lemma last_byte_bound (base len vaddr : Z) :
  vaddr < wrap64 (base + len) -> 0 <= vaddr -> vaddr <= wrap64 (base + len - 1).
Proof.
  unfold wrap64. intros H H0.
  pose proof (Z.mod_pos_bound (base + len) (2 ^ 64) ltac:(lia)) as Hb.
  assert (E : (base + len - 1) mod 2 ^ 64 = (base + len) mod 2 ^ 64 - 1).
  { symmetry. apply Z.mod_unique_pos with (q := (base + len) / 2 ^ 64); [lia|].
    pose proof (Z.div_mod (base + len) (2 ^ 64) ltac:(lia)). lia. }
  lia.
Qed.

(** X10. On an initialised subsystem [KernelQueryMemoryProtection addr]
    ends in [Exit] for the null address; for any other address it changes
    nothing, asks the physical manager first and the flexible manager only
    when the physical one does not contain the address, reports
    [(base, base+len-1, prot)] of the entry found, and returns the
    access-denied error when neither manager contains the address. The
    range it reports always contains the queried address. *)
Theorem KernelQueryMemoryProtection_contract
    (pm : list PhysicalMemory.AllocatedBlock)
    (fm : list FlexibleMemory.AllocatedBlock) (cs : list call) (addr : Z) :
  let w := mkWorld (Some pm) (Some fm) cs in
  KernelQueryMemoryProtection 0 w = Exit /\
  (addr <> 0 ->
   (forall r w', KernelQueryMemoryProtection addr w = Return r w' -> w' = w) /\
   (forall base len p md g,
      PhysicalMemory.Find pm addr = Some (base, len, p, md, g) ->
      KernelQueryMemoryProtection addr w
      = Return (OK, Some (base, wrap64 (base + len - 1), p)) w) /\
   (forall base len p md g,
      PhysicalMemory.Find pm addr = None ->
      FlexibleMemory.Find fm addr = Some (base, len, p, md, g) ->
      KernelQueryMemoryProtection addr w
      = Return (OK, Some (base, wrap64 (base + len - 1), p)) w) /\
   (PhysicalMemory.Find pm addr = None -> FlexibleMemory.Find fm addr = None ->
    KernelQueryMemoryProtection addr w = Return (KERNEL_ERROR_EACCES, None) w) /\
   (0 < addr ->
    forall first last p w',
      KernelQueryMemoryProtection addr w = Return (OK, Some (first, last, p)) w' ->
      first <= addr <= last)).
Proof.
  intros w. split; [reflexivity|]. intros Hne. subst w.
  rewrite KernelQueryMemoryProtection_run by assumption. cbv zeta.
  repeat apply conj.
  - intros r w'.
    destruct (PhysicalMemory.Find pm addr) as [[[[[base len] p] md] g]|];
      [now intros [= _ <-]|].
    destruct (FlexibleMemory.Find fm addr) as [[[[[base len] p] md] g]|];
      now intros [= _ <-].
  - intros base len p md g H. now rewrite H.
  - intros base len p md g Hp Hf. now rewrite Hp, Hf.
  - intros Hp Hf. now rewrite Hp, Hf.
  - intros Hpos first last p w'.
    destruct (PhysicalMemory.Find pm addr) as [[[[[base len] q] md] g]|] eqn:Hp.
    + intros [= <- <- _ _]. apply PhysicalMemory_Find_Some in Hp.
      split; [lia|]. apply last_byte_bound; lia.
    + destruct (FlexibleMemory.Find fm addr) as [[[[[base len] q] md] g]|] eqn:Hf;
        [|discriminate].
      intros [= <- <- _ _]. apply FlexibleMemory_Find_Some in Hf.
      split; [lia|]. apply last_byte_bound; lia.
Qed.

(** X10 with concrete numbers: an address inside a direct mapping that a
    flexible mapping also contains is answered by the physical manager. *)
Lemma KernelQueryMemoryProtection_contract_witness :
  let b := PhysicalMemory.mkBlock 0 100 4096 16 3
             VirtualMemory.ReadWrite Graphics.NoAccess in
  let f := FlexibleMemory.mkBlock 4096 32 1 VirtualMemory.Read Graphics.NoAccess in
  let w := mkWorld (Some [b]) (Some [f]) [] in
  KernelQueryMemoryProtection 4100 w = Return (OK, Some (4096, wrap64 (4096 + 16 - 1), 3)) w /\
  KernelQueryMemoryProtection 4120 w = Return (OK, Some (4096, wrap64 (4096 + 32 - 1), 1)) w /\
  KernelQueryMemoryProtection 5000 w = Return (KERNEL_ERROR_EACCES, None) w.
Proof.
  intros b f w. split; [|split].
  - destruct (KernelQueryMemoryProtection_contract [b] [f] [] 4100) as (_ & H).
    destruct H as (_ & Hphys & _); [discriminate|].
    exact (Hphys 4096 16 3 VirtualMemory.ReadWrite Graphics.NoAccess eq_refl).
  - destruct (KernelQueryMemoryProtection_contract [b] [f] [] 4120) as (_ & H).
    destruct H as (_ & _ & Hflex & _); [discriminate|].
    exact (Hflex 4096 32 1 VirtualMemory.Read Graphics.NoAccess eq_refl eq_refl).
  - destruct (KernelQueryMemoryProtection_contract [b] [f] [] 5000) as (_ & H).
    destruct H as (_ & _ & _ & Hnone & _); [discriminate|].
    exact (Hnone eq_refl eq_refl).
Defined.

(** ** KernelMapDirectMemory *)

(** X11. The failure paths of a well-formed [KernelMapDirectMemory] call
    leave the physical manager as it was: when the host returns address 0
    the call returns the out-of-memory error before [Map] is called; when
    [Map] returns false, which it does when no block holds
    [direct_memory_start] and when the block that holds it is already
    mapped, the call frees the host reservation it has just made and returns
    the busy error. *)
Theorem KernelMapDirectMemory_failures
    (pm : list PhysicalMemory.AllocatedBlock)
    (fm : option (list FlexibleMemory.AllocatedBlock)) (cs : list call)
    (in_addr len prot direct_memory_start alignment host_addr : Z)
    (mode : VirtualMemory.Mode) (gpu_mode : Graphics.GpuMemoryMode) :
  direct_prot_switch prot = Some (mode, gpu_mode) ->
  let w := mkWorld (Some pm) fm cs in
  let reserve := VirtualMemory_AllocAligned in_addr len mode alignment in
  let busy :=
    Return (KERNEL_ERROR_EBUSY, host_addr)
      (mkWorld (Some pm) fm (cs ++ [reserve; VirtualMemory_Free host_addr])) in
  (host_addr = 0 ->
   KernelMapDirectMemory (Some in_addr) len prot 0 direct_memory_start alignment
     host_addr w
   = Return (KERNEL_ERROR_ENOMEM, 0) (mkWorld (Some pm) fm (cs ++ [reserve]))) /\
  (host_addr <> 0 ->
   (Forall (fun x => PhysicalMemory.holds_phys x (wrap64 direct_memory_start) = false)
      pm ->
    KernelMapDirectMemory (Some in_addr) len prot 0 direct_memory_start alignment
      host_addr w = busy) /\
   (forall l1 b l2,
      pm = l1 ++ b :: l2 ->
      Forall (fun x => PhysicalMemory.holds_phys x (wrap64 direct_memory_start) = false)
        l1 ->
      PhysicalMemory.holds_phys b (wrap64 direct_memory_start) = true ->
      PhysicalMemory.is_mapped b = true ->
      KernelMapDirectMemory (Some in_addr) len prot 0 direct_memory_start alignment
        host_addr w = busy)).
Proof.
  intros Hprot w reserve busy. subst w busy reserve.
  rewrite (KernelMapDirectMemory_run _ _ _ _ _ _ _ _ _ mode gpu_mode Hprot).
  cbv zeta. split.
  - intros ->. reflexivity.
  - intros Hne.
    replace (host_addr =? 0) with false by (symmetry; now apply Z.eqb_neq).
    split.
    + intros Hall. rewrite MapFacts.Map_no_target by assumption.
      now rewrite <- app_assoc.
    + intros l1 b l2 -> Hl1 Hb Hmapped.
      rewrite MapFacts.Map_target by assumption. rewrite Hmapped.
      now rewrite <- app_assoc.
Qed.

(** X11 with concrete numbers: mapping physical address 50 a second time
    is refused and the reservation at 8192 is freed. *)
Lemma KernelMapDirectMemory_failures_witness :
  let b := PhysicalMemory.mkBlock 0 100 4096 16 1
             VirtualMemory.Read Graphics.NoAccess in
  KernelMapDirectMemory (Some 0) 16 3 0 50 0 8192 (mkWorld (Some [b]) (Some []) [])
  = Return (KERNEL_ERROR_EBUSY, 8192)
      (mkWorld (Some [b]) (Some [])
         [VirtualMemory_AllocAligned 0 16 VirtualMemory.ReadWrite 0;
          VirtualMemory_Free 8192]).
Proof.
  intros b.
  destruct (KernelMapDirectMemory_failures [b] (Some []) [] 0 16 3 50 0 8192
              VirtualMemory.ReadWrite Graphics.NoAccess eq_refl) as (_ & H).
  destruct H as (_ & Hbusy); [discriminate|].
  apply (Hbusy [] b []); [reflexivity | constructor | reflexivity | reflexivity].
Defined.

(** ** Sequences of kernel calls *)

Lemma KernelMunmap_run pm fm cs vaddr len :
  0 <= vaddr -> len <> 0 ->
  KernelMunmap vaddr len (mkWorld (Some pm) (Some fm) cs)
  = match PhysicalMemory.Unmap pm vaddr len with
    | (Some gpu_mode, pm') =>
        Return OK
          (mkWorld (Some pm') (Some fm) (cs ++ teardown_spec vaddr len gpu_mode))
    | (None, pm') =>
        match FlexibleMemory.Unmap fm vaddr len with
        | (Some gpu_mode, fm') =>
            Return OK
              (mkWorld (Some pm') (Some fm') (cs ++ teardown_spec vaddr len gpu_mode))
        | (None, _) => Exit
        end
    end.
Proof.
  intros Hv Hl. unfold KernelMunmap. kernel_unfold_calls.
  assert (E : (vaddr <? 0) || (len =? 0) = false).
  { destruct (Z.ltb_spec vaddr 0); destruct (Z.eqb_spec len 0); cbn;
      try reflexivity; lia. }
  rewrite E. kernel_simpl.
  destruct (PhysicalMemory.Unmap pm vaddr len) as [[g|] pm']; kernel_simpl.
  - now rewrite free_ranges_run by (right; exact Hl).
  - destruct (FlexibleMemory.Unmap fm vaddr len) as [[g|] fm']; kernel_simpl;
      [|reflexivity].
    now rewrite free_ranges_run by (right; exact Hl).
Qed.

(** X12. A direct mapping and its unmapping. After a well-formed
    [KernelMapDirectMemory] in which the host returns a non-zero address
    and [Map] succeeds, [KernelMunmap] of that address and length (non-zero,
    carried by no block before) returns OK; the two calls together reserve,
    mark the range for the GPU when the code is 0x32 or 0x33, free the host
    range and then wait for the GPU and free the GPU range in that case;
    the flexible manager is untouched, and the physical manager keeps its
    blocks and answers every [Find] as before the two calls. *)
Theorem KernelMapDirectMemory_then_KernelMunmap
    (pm pm1 : list PhysicalMemory.AllocatedBlock)
    (fm : list FlexibleMemory.AllocatedBlock) (cs : list call)
    (in_addr len prot direct_memory_start alignment host_addr : Z)
    (mode : VirtualMemory.Mode) (gpu_mode : Graphics.GpuMemoryMode) :
  direct_prot_switch prot = Some (mode, gpu_mode) ->
  0 < host_addr -> len <> 0 ->
  Forall (fun x => ~ (PhysicalMemory.map_vaddr x = host_addr /\
                      PhysicalMemory.map_size x = len)) pm ->
  PhysicalMemory.Map pm host_addr (wrap64 direct_memory_start) len prot mode gpu_mode
  = (true, pm1) ->
  exists pm2,
    (KernelMapDirectMemory (Some in_addr) len prot 0 direct_memory_start alignment
       host_addr ;;
     KernelMunmap host_addr len) (mkWorld (Some pm) (Some fm) cs)
    = Return OK
        (mkWorld (Some pm2) (Some fm)
           (cs ++ [VirtualMemory_AllocAligned in_addr len mode alignment]
               ++ match gpu_mode with
                  | Graphics.NoAccess => []
                  | _ => [GpuMemorySetAllocatedRange host_addr len]
                  end
               ++ teardown_spec host_addr len gpu_mode)) /\
    physical_ranges pm2 = physical_ranges pm /\
    forall a, PhysicalMemory.Find pm2 a = PhysicalMemory.Find pm a.
Proof.
  intros Hprot Hhost Hlen Hfree Hmap.
  destruct (MapFacts.first_holder pm (wrap64 direct_memory_start))
    as [Hall|(l1 & b & l2 & -> & Hl1 & Hb)].
  { rewrite MapFacts.Map_no_target in Hmap by assumption. discriminate. }
  pose proof Hmap as Hmap'.
  rewrite MapFacts.Map_target in Hmap' by assumption.
  destruct (PhysicalMemory.is_mapped b) eqn:Hun; [discriminate|].
  injection Hmap' as <-.
  apply MapFacts.is_mapped_false in Hun as [Hbv Hbs].
  apply Forall_app in Hfree as [Hfree1 _].
  exists (l1 ++ PhysicalMemory.set_mapping b 0 0 0 VirtualMemory.NoAccess
                  Graphics.NoAccess :: l2).
  split; [|split].
  - unfold bind at 1.
    rewrite (KernelMapDirectMemory_run _ _ _ _ _ _ _ _ _ mode gpu_mode Hprot).
    cbv zeta.
    replace (host_addr =? 0) with false by (symmetry; apply Z.eqb_neq; lia).
    rewrite Hmap.
    destruct gpu_mode; rewrite KernelMunmap_run by lia;
      rewrite MapFacts.Unmap_first_match by (assumption || reflexivity);
      cbn [PhysicalMemory.gpu_mode PhysicalMemory.set_mapping app];
      now rewrite <- ?app_assoc.
  - now rewrite !RangeFacts.ranges_app.
  - intros a. rewrite !MapFacts.Find_skip; [reflexivity| |];
      now apply MapFacts.holds_vaddr_unmapped.
Qed.

(** X12 with concrete numbers: a GPU-visible mapping of 16 bytes at 8192
    on a fresh block and its unmapping. *)
Lemma KernelMapDirectMemory_then_KernelMunmap_witness :
  exists pm2,
    (KernelMapDirectMemory (Some 0) 16 50 0 50 0 8192 ;; KernelMunmap 8192 16)
      (mkWorld (Some [PhysicalMemory.fresh_block 0 100]) (Some []) [])
    = Return OK
        (mkWorld (Some pm2) (Some [])
           ([] ++ [VirtualMemory_AllocAligned 0 16 VirtualMemory.ReadWrite 0]
               ++ [GpuMemorySetAllocatedRange 8192 16]
               ++ teardown_spec 8192 16 Graphics.ReadWrite)) /\
    physical_ranges pm2 = physical_ranges [PhysicalMemory.fresh_block 0 100] /\
    forall a, PhysicalMemory.Find pm2 a
              = PhysicalMemory.Find [PhysicalMemory.fresh_block 0 100] a.
Proof.
  refine (KernelMapDirectMemory_then_KernelMunmap
            [PhysicalMemory.fresh_block 0 100] _ [] [] 0 16 50 50 0 8192
            VirtualMemory.ReadWrite Graphics.ReadWrite eq_refl _ _ _ eq_refl).
  - lia.
  - discriminate.
  - constructor; [|constructor]. cbn. intros [H _]. discriminate H.
Defined.

(** X13. A flexible mapping and its unmapping. After a well-formed
    [KernelMapNamedFlexibleMemory] in which the host returns a non-zero
    address, [KernelMunmap] of that address and length (non-zero, carried by
    no physical block and by no earlier flexible entry) returns OK and both
    managers are exactly as before the two calls; the collaborators have
    seen one reservation and one free of the same address, and no GPU
    call. *)
Theorem KernelMapNamedFlexibleMemory_then_KernelMunmap
    (pm : list PhysicalMemory.AllocatedBlock)
    (fm : list FlexibleMemory.AllocatedBlock) (cs : list call)
    (in_addr len prot host_addr : Z) (mode : VirtualMemory.Mode) :
  flexible_prot_switch prot = Some mode ->
  0 < host_addr -> len <> 0 ->
  Forall (fun x => ~ (PhysicalMemory.map_vaddr x = host_addr /\
                      PhysicalMemory.map_size x = len)) pm ->
  Forall (fun x => ~ (FlexibleMemory.map_vaddr x = host_addr /\
                      FlexibleMemory.map_size x = len)) fm ->
  (KernelMapNamedFlexibleMemory (Some in_addr) len prot 0 host_addr ;;
   KernelMunmap host_addr len) (mkWorld (Some pm) (Some fm) cs)
  = Return OK
      (mkWorld (Some pm) (Some fm)
         (cs ++ [VirtualMemory_Alloc in_addr len mode; VirtualMemory_Free host_addr])).
Proof.
  intros Hprot Hhost Hlen Hpm Hfm.
  unfold bind at 1.
  rewrite (KernelMapNamedFlexibleMemory_run _ _ _ _ _ _ _ mode Hprot).
  rewrite KernelMunmap_run by lia.
  rewrite MapFacts.Unmap_no_match by assumption.
  rewrite (FlexFacts.flexible_Unmap_first_match fm _ [])
    by (assumption || reflexivity).
  cbn [FlexibleMemory.gpu_mode teardown_spec].
  now rewrite app_nil_r, <- app_assoc.
Qed.

(** X13 with concrete numbers: 4096 bytes of read-write flexible memory at
    65536. *)
Lemma KernelMapNamedFlexibleMemory_then_KernelMunmap_witness :
  (KernelMapNamedFlexibleMemory (Some 0) 4096 3 0 65536 ;; KernelMunmap 65536 4096)
    Memory_SubsystemInit
  = Return OK
      (mkWorld (Some []) (Some [])
         ([] ++ [VirtualMemory_Alloc 0 4096 VirtualMemory.ReadWrite;
                 VirtualMemory_Free 65536])).
Proof.
  refine (KernelMapNamedFlexibleMemory_then_KernelMunmap [] [] [] 0 4096 3 65536
            VirtualMemory.ReadWrite eq_refl _ _ _ _);
    [lia | discriminate | constructor | constructor].
Defined.

Lemma KernelAllocateDirectMemory_run pm fm cs search_start search_end len alignment :
  int64 search_start -> int64 search_end ->
  0 <= search_start -> search_start < search_end -> len <> 0 ->
  KernelAllocateDirectMemory search_start search_end len alignment false
    (mkWorld (Some pm) fm cs)
  = match PhysicalMemory.Alloc pm search_start search_end len alignment false with
    | (Some addr, pm') => Return (OK, Some (to_int64 addr)) (mkWorld (Some pm') fm cs)
    | (None, pm') => Return (KERNEL_ERROR_EAGAIN, None) (mkWorld (Some pm') fm cs)
    end.
Proof.
  unfold int64. intros Hs He Hs0 Hlt Hlen.
  unfold KernelAllocateDirectMemory. kernel_unfold_calls.
  assert (E : (search_start <? 0) || (search_end <=? search_start) || (len =? 0)
              || false = false).
  { destruct (Z.ltb_spec search_start 0); destruct (Z.leb_spec search_end search_start);
      destruct (Z.eqb_spec len 0); cbn; try reflexivity; lia. }
  rewrite E. kernel_simpl. rewrite !wrap64_small by lia.
  now destruct (PhysicalMemory.Alloc pm search_start search_end len alignment false)
    as [[addr|] pm'].
Qed.

(** X14. Allocating direct memory and releasing it at once. When a
    well-formed [KernelAllocateDirectMemory] succeeds (non-zero length,
    rounding and block end below 2^64), [KernelReleaseDirectMemory] with the
    address it stored and the same length returns OK, and the two calls
    leave both managers as they were and call no collaborator. *)
Theorem KernelAllocateDirectMemory_then_Release
    (pm pm1 : list PhysicalMemory.AllocatedBlock)
    (fm : option (list FlexibleMemory.AllocatedBlock)) (cs : list call)
    (search_start search_end len alignment addr : Z) :
  int64 search_start -> int64 search_end ->
  0 <= search_start -> search_start < search_end ->
  0 < len -> 0 <= alignment ->
  PhysicalMemory.scan_free_pos pm + alignment <= 2 ^ 64 ->
  addr + len < 2 ^ 64 ->
  PhysicalMemory.Alloc pm search_start search_end len alignment false
  = (Some addr, pm1) ->
  let w := mkWorld (Some pm) fm cs in
  KernelAllocateDirectMemory search_start search_end len alignment false w
  = Return (OK, Some addr) (mkWorld (Some pm1) fm cs) /\
  KernelReleaseDirectMemory addr len (mkWorld (Some pm1) fm cs) = Return OK w.
Proof.
  intros Hs He Hs0 Hlt Hlen Hal Hscan Hend Halloc w. subst w.
  assert (Hsmall : 0 <= addr < 2 ^ 63).
  { pose proof Halloc as H. apply AllocFacts.Alloc_Some in H as [Haddr _].
    pose proof (AllocFacts.candidate_nonneg pm alignment) as Hnn.
    rewrite <- Haddr in Hnn.
    unfold PhysicalMemory.Alloc in Halloc. rewrite <- Haddr in Halloc.
    destruct (addr >=? search_start); [|discriminate].
    destruct (Z.leb_spec (wrap64 (addr + len)) search_end) as [Hle|]; [|discriminate].
    rewrite wrap64_small in Hle by lia. unfold int64 in He. lia. }
  split.
  - rewrite KernelAllocateDirectMemory_run by (assumption || lia).
    rewrite Halloc. now rewrite to_int64_small.
  - rewrite KernelReleaseDirectMemory_run by lia.
    rewrite (Release_after_Alloc pm pm1 search_start search_end len alignment addr)
      by assumption.
    cbn [Z.eqb andb app]. now rewrite app_nil_r.
Qed.

(** X14 with concrete numbers: 48 bytes allocated after a block of 16 and
    released again. *)
Lemma KernelAllocateDirectMemory_then_Release_witness :
  let pm := [PhysicalMemory.fresh_block 0 16] in
  let pm1 := pm ++ [PhysicalMemory.fresh_block 16 48] in
  let w := mkWorld (Some pm) (Some []) [] in
  KernelAllocateDirectMemory 0 64 48 0 false w
  = Return (OK, Some 16) (mkWorld (Some pm1) (Some []) []) /\
  KernelReleaseDirectMemory 16 48 (mkWorld (Some pm1) (Some []) []) = Return OK w.
Proof.
  intros pm pm1 w.
  refine (KernelAllocateDirectMemory_then_Release pm pm1 (Some []) [] 0 64 48 0 16
            _ _ _ _ _ _ _ _ eq_refl);
    try (unfold int64; lia).
  vm_compute. discriminate.
Defined.

(** X15. [KernelAllocateDirectMemory] on a subsystem whose physical manager
    exists never ends the session and never calls a collaborator: it
    returns a status; unless the status is OK the block list is unchanged
    and nothing is stored through the output pointer; when it is OK exactly
    one unmapped block of the requested length has been appended, and the
    stored value is its address. *)
Theorem KernelAllocateDirectMemory_always_returns
    (pm : list PhysicalMemory.AllocatedBlock)
    (fm : option (list FlexibleMemory.AllocatedBlock)) (cs : list call)
    (search_start search_end len alignment : Z) (phys_addr_out_null : bool) :
  exists st out pm',
    KernelAllocateDirectMemory search_start search_end len alignment
      phys_addr_out_null (mkWorld (Some pm) fm cs)
    = Return (st, out) (mkWorld (Some pm') fm cs) /\
    (st <> OK -> pm' = pm /\ out = None) /\
    (st = OK ->
     exists addr,
       out = Some (to_int64 addr) /\
       pm' = pm ++ [PhysicalMemory.fresh_block addr len]).
Proof.
  unfold KernelAllocateDirectMemory. kernel_unfold_calls.
  destruct ((search_start <? 0) || (search_end <=? search_start) || (len =? 0)
            || phys_addr_out_null).
  - exists KERNEL_ERROR_EINVAL, None, pm. split; [reflexivity|].
    split; [now split|discriminate].
  - kernel_simpl.
    destruct (PhysicalMemory.Alloc pm (wrap64 search_start) (wrap64 search_end) len
                alignment false) as [[addr|] pm'] eqn:Ha.
    + apply AllocFacts.Alloc_Some in Ha as [_ ->].
      exists OK, (Some (to_int64 addr)), (pm ++ [PhysicalMemory.fresh_block addr len]).
      split; [reflexivity|]. split; [congruence|]. intros _. now exists addr.
    + apply AllocFacts.Alloc_None in Ha as ->.
      exists KERNEL_ERROR_EAGAIN, None, pm. split; [reflexivity|].
      split; [now split|discriminate].
Qed.

(** X16. The capacity [KernelGetDirectMemorySize] reports is a constant,
    5376 MiB, that [KernelAllocateDirectMemory] does not enforce: on a fresh
    subsystem a request of any length up to 2^63 - 1 with a window as long
    as the request is granted at address 0, lengths above the reported
    capacity included. *)
Theorem reported_capacity_is_not_enforced :
  (forall w, KernelGetDirectMemorySize w = Return (5376 * 1024 * 1024) w) /\
  (forall len alignment,
     0 < len < 2 ^ 63 ->
     KernelAllocateDirectMemory 0 len len alignment false Memory_SubsystemInit
     = Return (OK, Some 0)
         (mkWorld (Some [PhysicalMemory.fresh_block 0 len]) (Some []) [])) /\
  (forall len alignment,
     PhysicalMemory.Size < len < 2 ^ 63 ->
     exists w,
       KernelAllocateDirectMemory 0 len len alignment false Memory_SubsystemInit
       = Return (OK, Some 0) w).
Proof.
  assert (H : forall len alignment,
     0 < len < 2 ^ 63 ->
     KernelAllocateDirectMemory 0 len len alignment false Memory_SubsystemInit
     = Return (OK, Some 0)
         (mkWorld (Some [PhysicalMemory.fresh_block 0 len]) (Some []) [])).
  { intros len alignment Hlen. unfold Memory_SubsystemInit.
    rewrite KernelAllocateDirectMemory_run by (unfold int64; lia).
    assert (Hc : get_aligned_pos (PhysicalMemory.scan_free_pos []) alignment = 0).
    { unfold get_aligned_pos. rewrite AllocFacts.scan_nil.
      destruct (negb (alignment =? 0)); [|reflexivity].
      replace (0 + (alignment - 1)) with (alignment - 1) by lia.
      rewrite (wrap64_land (Z.lnot _)), Z.land_assoc, Z.land_lnot_diag.
      apply Z.land_0_l. }
    unfold PhysicalMemory.Alloc. rewrite Hc. cbn [Z.add].
    rewrite wrap64_small by lia.
    replace (0 >=? 0) with true by reflexivity.
    replace (len <=? len) with true by (symmetry; apply Z.leb_refl).
    reflexivity. }
  split; [reflexivity|]. split; [exact H|].
  intros len alignment Hlen. eexists. apply H.
  unfold PhysicalMemory.Size in Hlen. lia.
Qed.

(** X16 with a concrete length: 8 GiB are granted although the reported
    capacity is 5376 MiB. *)
Lemma reported_capacity_is_not_enforced_witness :
  KernelAllocateDirectMemory 0 (8 * 1024 * 1024 * 1024) (8 * 1024 * 1024 * 1024) 0
    false Memory_SubsystemInit
  = Return (OK, Some 0)
      (mkWorld (Some [PhysicalMemory.fresh_block 0 (8 * 1024 * 1024 * 1024)])
         (Some []) []).
Proof.
  destruct reported_capacity_is_not_enforced as (_ & H & _).
  apply H. lia.
Defined.

(** X15 at a concrete call. *)
Lemma KernelAllocateDirectMemory_always_returns_witness :
  exists st out pm',
    KernelAllocateDirectMemory 0 64 49 0 false
      (mkWorld (Some [PhysicalMemory.fresh_block 0 16]) (Some []) [])
    = Return (st, out) (mkWorld (Some pm') (Some []) []) /\
    (st <> OK -> pm' = [PhysicalMemory.fresh_block 0 16] /\ out = None) /\
    (st = OK ->
     exists addr,
       out = Some (to_int64 addr) /\
       pm' = [PhysicalMemory.fresh_block 0 16] ++ [PhysicalMemory.fresh_block addr 49]).
Proof.
  exact (KernelAllocateDirectMemory_always_returns
           [PhysicalMemory.fresh_block 0 16] (Some []) [] 0 64 49 0 false).
Defined.

(** ** Which manager an entry point can change *)

Lemma alone_ret {A} (a : A) : leaves_flexible_alone (ret a) /\ leaves_physical_alone (ret a).
Proof. split; intros w a' w' [= _ <-]; reflexivity. Qed.

Lemma flexible_alone_bind {A B} (c : M A) (k : A -> M B) :
  leaves_flexible_alone c -> (forall a, leaves_flexible_alone (k a)) ->
  leaves_flexible_alone (bind c k).
Proof.
  intros Hc Hk w b w'. unfold bind.
  destruct (c w) as [|a w1] eqn:E; [discriminate|].
  intros H. rewrite (Hk a w1 b w' H). exact (Hc w a w1 E).
Qed.

Lemma physical_alone_bind {A B} (c : M A) (k : A -> M B) :
  leaves_physical_alone c -> (forall a, leaves_physical_alone (k a)) ->
  leaves_physical_alone (bind c k).
Proof.
  intros Hc Hk w b w'. unfold bind.
  destruct (c w) as [|a w1] eqn:E; [discriminate|].
  intros H. rewrite (Hk a w1 b w' H). exact (Hc w a w1 E).
Qed.

Lemma alone_EXIT_IF (flag : bool) :
  leaves_flexible_alone (EXIT_IF flag) /\ leaves_physical_alone (EXIT_IF flag).
Proof.
  split; intros w a w'; unfold EXIT_IF; destruct flag; try discriminate;
    now intros [= _ <-].
Qed.

Lemma alone_or_EXIT {A} (o : option A) :
  leaves_flexible_alone (or_EXIT o) /\ leaves_physical_alone (or_EXIT o).
Proof.
  destruct o; [apply alone_ret|]. split; intros w a w' H; discriminate H.
Qed.

Lemma alone_is_null :
  (leaves_flexible_alone physical_is_null /\ leaves_physical_alone physical_is_null) /\
  (leaves_flexible_alone flexible_is_null /\ leaves_physical_alone flexible_is_null).
Proof. repeat split; intros w a w' [= _ <-]; reflexivity. Qed.

Lemma alone_collaborator (c : call) :
  leaves_flexible_alone (collaborator c) /\ leaves_physical_alone (collaborator c).
Proof. split; intros w a w' [= _ <-]; reflexivity. Qed.

Lemma flexible_alone_on_physical {A}
    (f : list PhysicalMemory.AllocatedBlock -> A * list PhysicalMemory.AllocatedBlock) :
  leaves_flexible_alone (on_physical f).
Proof.
  intros w a w'. unfold on_physical.
  destruct (g_physical_memory w) as [m|]; [|discriminate].
  destruct (f m). now intros [= _ <-].
Qed.

Lemma physical_alone_on_flexible {A}
    (f : list FlexibleMemory.AllocatedBlock -> A * list FlexibleMemory.AllocatedBlock) :
  leaves_physical_alone (on_flexible f).
Proof.
  intros w a w'. unfold on_flexible.
  destruct (g_flexible_memory w) as [m|]; [|discriminate].
  destruct (f m). now intros [= _ <-].
Qed.

(** A method that only reads leaves its own manager alone as well. *)
Lemma physical_alone_on_physical_read {A}
    (f : list PhysicalMemory.AllocatedBlock -> A) :
  leaves_physical_alone (on_physical (fun m => (f m, m))).
Proof.
  intros w a w'. unfold on_physical.
  destruct (g_physical_memory w) as [m|] eqn:E; [|discriminate].
  now intros [= _ <-].
Qed.

Lemma flexible_alone_on_flexible_read {A}
    (f : list FlexibleMemory.AllocatedBlock -> A) :
  leaves_flexible_alone (on_flexible (fun m => (f m, m))).
Proof.
  intros w a w'. unfold on_flexible.
  destruct (g_flexible_memory w) as [m|] eqn:E; [|discriminate].
  now intros [= _ <-].
Qed.

Lemma alone_free_ranges (vaddr size : Z) (gpu_mode : Graphics.GpuMemoryMode) :
  leaves_flexible_alone (free_ranges vaddr size gpu_mode) /\
  leaves_physical_alone (free_ranges vaddr size gpu_mode).
Proof.
  split; intros w a w'; rewrite free_ranges_calls; now intros [= _ <-].
Qed.

Ltac alone_step :=
  match goal with
  | |- leaves_flexible_alone (bind _ _) => apply flexible_alone_bind; [|intros ?]
  | |- leaves_physical_alone (bind _ _) => apply physical_alone_bind; [|intros ?]
  | |- _ (if ?c then _ else _) => destruct c
  | |- _ (match ?o with Some _ => _ | None => _ end) => destruct o
  | |- _ (let (_, _) := ?p in _) => destruct p
  | |- _ (EXIT_NOT_IMPLEMENTED _) => apply alone_EXIT_IF
  | |- _ (EXIT_IF _) => apply alone_EXIT_IF
  | |- _ (ret _) => apply alone_ret
  | |- _ (or_EXIT _) => apply alone_or_EXIT
  | |- _ physical_is_null => apply alone_is_null
  | |- _ flexible_is_null => apply alone_is_null
  | |- _ (collaborator _) => apply alone_collaborator
  | |- _ (free_ranges _ _ _) => apply alone_free_ranges
  | |- leaves_flexible_alone (on_physical _) => apply flexible_alone_on_physical
  | |- leaves_physical_alone (on_flexible _) => apply physical_alone_on_flexible
  | |- leaves_physical_alone (on_physical (fun m => (_, m))) =>
      apply physical_alone_on_physical_read
  | |- leaves_flexible_alone (on_flexible (fun m => (_, m))) =>
      apply flexible_alone_on_flexible_read
  end.

(** X17. The entry points for direct memory never change the flexible
    manager, [KernelMapNamedFlexibleMemory] never changes the physical
    manager, and [KernelQueryMemoryProtection] changes neither. *)
Theorem entry_points_keep_to_their_manager :
  (forall search_start search_end len alignment null,
     leaves_flexible_alone
       (KernelAllocateDirectMemory search_start search_end len alignment null)) /\
  (forall start len, leaves_flexible_alone (KernelReleaseDirectMemory start len)) /\
  (forall addr len prot flags direct_memory_start alignment host_addr,
     leaves_flexible_alone
       (KernelMapDirectMemory addr len prot flags direct_memory_start alignment
          host_addr)) /\
  (forall addr_in_out len prot flags host_addr,
     leaves_physical_alone
       (KernelMapNamedFlexibleMemory addr_in_out len prot flags host_addr)) /\
  (forall addr,
     leaves_flexible_alone (KernelQueryMemoryProtection addr) /\
     leaves_physical_alone (KernelQueryMemoryProtection addr)).
Proof.
  repeat apply conj; intros.
  - unfold KernelAllocateDirectMemory. repeat alone_step.
  - unfold KernelReleaseDirectMemory. repeat alone_step.
  - unfold KernelMapDirectMemory. repeat alone_step.
  - unfold KernelMapNamedFlexibleMemory. repeat alone_step.
  - split; unfold KernelQueryMemoryProtection; repeat alone_step.
Qed.

(** X17 at a concrete call: a direct mapping leaves the flexible manager
    with its one entry. *)
Lemma entry_points_keep_to_their_manager_witness :
  let f := FlexibleMemory.mkBlock 4096 32 1 VirtualMemory.Read Graphics.NoAccess in
  let w := mkWorld (Some [PhysicalMemory.fresh_block 0 100]) (Some [f]) [] in
  let w' :=
    mkWorld
      (Some [PhysicalMemory.mkBlock 0 100 8192 16 3 VirtualMemory.ReadWrite
               Graphics.NoAccess])
      (Some [f]) [VirtualMemory_AllocAligned 0 16 VirtualMemory.ReadWrite 0] in
  KernelMapDirectMemory (Some 0) 16 3 0 50 0 8192 w = Return (OK, 8192) w' /\
  g_flexible_memory w' = g_flexible_memory w.
Proof.
  intros f w w'.
  destruct entry_points_keep_to_their_manager as (_ & _ & Hmap & _).
  split; [reflexivity|].
  exact (Hmap (Some 0) 16 3 0 50 0 8192 w (OK, 8192) w' eq_refl).
Defined.

(** ** Queries after a mapping *)

(** X18. A fresh mapping is what the query reports. After a well-formed
    [KernelMapDirectMemory], respectively [KernelMapNamedFlexibleMemory],
    that returns OK for a non-empty range below 2^64, a
    [KernelQueryMemoryProtection] on an address of that range which no
    entry of either manager contained before returns OK with the start of
    the range, its last byte and the raw protection code of the call. *)
Theorem query_reports_fresh_mapping
    (pm pm1 : list PhysicalMemory.AllocatedBlock)
    (fm : list FlexibleMemory.AllocatedBlock) (cs : list call)
    (in_addr len prot host_addr a : Z) :
  0 < host_addr -> 0 < len -> host_addr + len < 2 ^ 64 ->
  host_addr <= a < host_addr + len ->
  PhysicalMemory.Find pm a = None -> FlexibleMemory.Find fm a = None ->
  (forall direct_memory_start alignment mode gpu_mode,
     direct_prot_switch prot = Some (mode, gpu_mode) ->
     PhysicalMemory.Map pm host_addr (wrap64 direct_memory_start) len prot mode
       gpu_mode = (true, pm1) ->
     exists w',
       (KernelMapDirectMemory (Some in_addr) len prot 0 direct_memory_start
          alignment host_addr ;;
        KernelQueryMemoryProtection a) (mkWorld (Some pm) (Some fm) cs)
       = Return (OK, Some (host_addr, host_addr + len - 1, prot)) w') /\
  (forall mode,
     flexible_prot_switch prot = Some mode ->
     exists w',
       (KernelMapNamedFlexibleMemory (Some in_addr) len prot 0 host_addr ;;
        KernelQueryMemoryProtection a) (mkWorld (Some pm) (Some fm) cs)
       = Return (OK, Some (host_addr, host_addr + len - 1, prot)) w').
Proof.
  intros Hhost Hlen Hend Ha Hpm Hfm. split.
  - intros dms al mode gpu_mode Hprot Hmap.
    destruct (Find_after_Map pm pm1 host_addr (wrap64 dms) len prot mode gpu_mode)
      as [_ Hin]; [lia | lia | lia | exact Hmap |].
    specialize (Hin a Ha Hpm).
    eexists. unfold bind at 1.
    rewrite (KernelMapDirectMemory_run _ _ _ _ _ _ _ _ _ mode gpu_mode Hprot).
    cbv zeta.
    replace (host_addr =? 0) with false by (symmetry; apply Z.eqb_neq; lia).
    rewrite Hmap.
    rewrite KernelQueryMemoryProtection_run by lia. cbv zeta. rewrite Hin.
    rewrite wrap64_small by lia. reflexivity.
  - intros mode Hprot. eexists. unfold bind at 1.
    rewrite (KernelMapNamedFlexibleMemory_run _ _ _ _ _ _ _ mode Hprot).
    replace (host_addr =? 0) with false by (symmetry; apply Z.eqb_neq; lia).
    rewrite KernelQueryMemoryProtection_run by lia. cbv zeta. rewrite Hpm.
    rewrite FlexibleMemory_Find_app, Hfm. cbn [FlexibleMemory.Find].
    assert (He : FlexibleMemory.holds_vaddr
                   (FlexibleMemory.mkBlock host_addr len prot mode Graphics.NoAccess) a
                 = true).
    { apply FlexFacts.flexible_holds_vaddr_spec;
        [unfold mapping_in_range|unfold contains_spec]; cbn; lia. }
    rewrite He. cbn [FlexibleMemory.attributes_of FlexibleMemory.map_vaddr
      FlexibleMemory.map_size FlexibleMemory.prot].
    rewrite wrap64_small by lia. reflexivity.
Qed.

(** X18 with concrete numbers: a flexible mapping of 4096 bytes at 65536,
    queried at 65600. *)
Lemma query_reports_fresh_mapping_witness :
  exists w',
    (KernelMapNamedFlexibleMemory (Some 0) 4096 3 0 65536 ;;
     KernelQueryMemoryProtection 65600) Memory_SubsystemInit
    = Return (OK, Some (65536, 65536 + 4096 - 1, 3)) w'.
Proof.
  destruct (query_reports_fresh_mapping [] [] [] [] 0 4096 3 65536 65600)
    as (_ & Hflex); [lia | lia | lia | lia | reflexivity | reflexivity |].
  exact (Hflex VirtualMemory.ReadWrite eq_refl).
Defined.

(** ** Releasing a block that is still mapped *)

(** X19. Releasing a mapped block tears its mapping down.
    [KernelReleaseDirectMemory] on a block that still carries a mapping of
    non-zero size makes the same collaborator calls and leaves the same
    managers as [KernelMunmap] of that mapping followed by
    [KernelReleaseDirectMemory]: the host range is freed once either way,
    and the release after the unmap calls no collaborator. *)
Theorem release_of_mapped_block_unmaps_it
    (l1 : list PhysicalMemory.AllocatedBlock) (b : PhysicalMemory.AllocatedBlock)
    (l2 : list PhysicalMemory.AllocatedBlock)
    (fm : list FlexibleMemory.AllocatedBlock) (cs : list call) :
  let start := PhysicalMemory.start_addr b in
  let len := PhysicalMemory.size b in
  let vaddr := PhysicalMemory.map_vaddr b in
  let size := PhysicalMemory.map_size b in
  0 <= start < 2 ^ 63 -> len <> 0 -> 0 <= vaddr -> size <> 0 ->
  Forall (fun x => ~ same_range start len x) l1 ->
  Forall (fun x => ~ (PhysicalMemory.map_vaddr x = vaddr /\
                      PhysicalMemory.map_size x = size)) l1 ->
  let w := mkWorld (Some (l1 ++ b :: l2)) (Some fm) cs in
  let done :=
    Return OK
      (mkWorld (Some (l1 ++ l2)) (Some fm)
         (cs ++ teardown_spec vaddr size (PhysicalMemory.gpu_mode b))) in
  KernelReleaseDirectMemory start len w = done /\
  (KernelMunmap vaddr size ;; KernelReleaseDirectMemory start len) w = done.
Proof.
  intros start len vaddr size Hs Hl Hv Hz Hrange Hmapping w done.
  subst w done. split.
  - rewrite KernelReleaseDirectMemory_run by assumption.
    rewrite ReleaseFacts.Release_first_match by (assumption || now split).
    fold vaddr size.
    replace ((vaddr =? 0) && (size =? 0)) with false.
    + now destruct (PhysicalMemory.gpu_mode b).
    + symmetry. apply andb_false_iff. right. now apply Z.eqb_neq.
  - unfold bind. rewrite KernelMunmap_run by assumption.
    rewrite MapFacts.Unmap_first_match by (assumption || reflexivity).
    rewrite KernelReleaseDirectMemory_run by assumption.
    rewrite ReleaseFacts.Release_first_match by (assumption || now split).
    cbn [PhysicalMemory.map_vaddr PhysicalMemory.map_size PhysicalMemory.gpu_mode
         PhysicalMemory.set_mapping Z.eqb andb app].
    now rewrite app_nil_r.
Qed.

(** X19 with concrete numbers: a GPU-visible mapping of 16 bytes at 4096 on
    a block of 100 bytes. *)
Lemma release_of_mapped_block_unmaps_it_witness :
  let b := PhysicalMemory.mkBlock 0 100 4096 16 50
             VirtualMemory.ReadWrite Graphics.ReadWrite in
  let w := mkWorld (Some [b]) (Some []) [] in
  KernelReleaseDirectMemory 0 100 w
  = Return OK (mkWorld (Some []) (Some []) (teardown_spec 4096 16 Graphics.ReadWrite)) /\
  (KernelMunmap 4096 16 ;; KernelReleaseDirectMemory 0 100) w
  = Return OK (mkWorld (Some []) (Some []) (teardown_spec 4096 16 Graphics.ReadWrite)).
Proof.
  intros b w.
  refine (release_of_mapped_block_unmaps_it [] b [] [] [] _ _ _ _ _ _);
    cbn; try lia; try discriminate; constructor.
Defined.

(** ** Contiguous allocation *)

(** X20. No gap after an aligned end. When [Alloc] has returned [addr] for
    [len] (rounding and block end below 2^64) and the end [addr + len] is a
    multiple of the power-of-two alignment of the next call, or that
    alignment is 0, the next successful [Alloc] returns exactly
    [addr + len]. *)
Theorem Alloc_is_contiguous
    (m m1 m2 : list PhysicalMemory.AllocatedBlock)
    (s1 e1 len alignment addr s2 e2 len' alignment' addr' : Z) :
  0 <= len -> 0 <= alignment ->
  PhysicalMemory.scan_free_pos m + alignment <= 2 ^ 64 ->
  addr + len < 2 ^ 64 ->
  PhysicalMemory.Alloc m s1 e1 len alignment false = (Some addr, m1) ->
  alignment' = 0 \/
    (exists k, 0 <= k /\ alignment' = 2 ^ k /\ (addr + len) mod 2 ^ k = 0 /\
               addr + len + 2 ^ k <= 2 ^ 64) ->
  PhysicalMemory.Alloc m1 s2 e2 len' alignment' false = (Some addr', m2) ->
  addr' = addr + len.
Proof.
  intros Hlen Hal Hscan Hend H1 Hal' H2.
  apply AllocFacts.Alloc_Some in H1 as [Haddr ->].
  apply AllocFacts.Alloc_Some in H2 as [-> _].
  pose proof (AllocFacts.candidate_ge_scan m alignment Hal Hscan) as Hge.
  rewrite <- Haddr in Hge. pose proof (AllocFacts.scan_range m) as Hr.
  assert (Hscan1 : PhysicalMemory.scan_free_pos
                     (m ++ [PhysicalMemory.fresh_block addr len]) = addr + len).
  { rewrite AllocFacts.scan_app_one. unfold block_end, PhysicalMemory.fresh_block.
    cbn [PhysicalMemory.start_addr PhysicalMemory.size].
    rewrite wrap64_small by lia. lia. }
  rewrite Hscan1.
  destruct Hal' as [->|(k & Hk & -> & Hmod & Hroom)]; [reflexivity|].
  assert (Hpow : 0 < 2 ^ k) by (apply Z.pow_pos_nonneg; lia).
  rewrite get_aligned_pos_pow2 by lia. unfold align_up_spec.
  replace (2 ^ k =? 0) with false by (symmetry; apply Z.eqb_neq; lia).
  pose proof (Z.div_mod (addr + len) (2 ^ k) ltac:(lia)) as Hdm.
  rewrite Hmod in Hdm.
  replace (addr + len + 2 ^ k - 1)
    with ((2 ^ k - 1) + ((addr + len) / 2 ^ k) * 2 ^ k) by lia.
  rewrite Z.div_add by lia. rewrite (Z.div_small (2 ^ k - 1)) by lia. lia.
Qed.

(** X20 with concrete numbers: 32 bytes at 0, then a block aligned to 16
    at 32. *)
Lemma Alloc_is_contiguous_witness : 32 = 0 + 32.
Proof.
  refine (Alloc_is_contiguous [] [PhysicalMemory.fresh_block 0 32]
            [PhysicalMemory.fresh_block 0 32; PhysicalMemory.fresh_block 32 8]
            0 4096 32 0 0 0 4096 8 16 32 _ _ _ _ eq_refl _ eq_refl);
    try lia; [vm_compute; discriminate|].
  right. exists 4. repeat split; try lia; reflexivity.
Defined.
